(** * PasswordAnalyzer: a shallow embedding of [password_strength.py]

    The development follows the layout of the script:
    - the [str] operations of Python that the script relies on,
    - SHA-1 ([hashlib.sha1]) and the hexadecimal digest,
    - the rule sets and the helpers ([mask_password_for_log],
      [normalise_leet], [is_obvious_sequence], [is_common_variant]),
    - the k-anonymity lookup [check_pwned],
    - the logging helper [log_result] and the scoring function
      [check_strength],
    followed by the theorems.

    Data model.  A Python [str] is a sequence of code points; here it is a
    Rocq [string], each [ascii] standing for the code point of the same
    number (U+0000 to U+00FF).  On that range the character classes and the
    case mappings below are those of CPython.  Text that the script only
    prints or logs and that leaves this range (the labels and the tips, which
    start with a pictograph) is kept symbolic, as the constructors of [Label]
    and [Tip].

    Limits of the model.  Every string of this range has a UTF-8 encoding,
    so [encode_utf8] is total; a Python [str] that holds a lone surrogate has
    none, [password.encode] raises on it and nothing in the script catches
    that: such passwords are outside the model, and a run as modelled is a
    run that goes to its end.  What goes to the log is kept as the record of
    the fields of the one formatted string ([LogLine]), not as the characters
    written: a tab or a line break inside the masked password is not told
    apart from the separators. *)

From Stdlib Require Import ZArith NArith List Bool Ascii String Lia.
From Stdlib Require Import DecimalString DecimalPos DecimalZ.
Import ListNotations.

Local Open Scope string_scope.
Local Open Scope list_scope.
Local Open Scope Z_scope.

(** ** Characters *)

Definition ord (c : ascii) : N := N_of_ascii c.
Definition chr (n : N) : ascii := ascii_of_N n.

(** [between lo hi c]: the regular-expression range [lo-hi]. *)
Definition between (lo hi c : ascii) : bool :=
  ((ord lo <=? ord c) && (ord c <=? ord hi))%N.

Definition is_upper_az (c : ascii) : bool := between "A" "Z" c.
Definition is_lower_az (c : ascii) : bool := between "a" "z" c.
Definition is_alpha_az (c : ascii) : bool := is_lower_az c || is_upper_az c.

(** [\d] of the [re] module on a [str] pattern: the decimal digits; below
    U+0100 these are 0 to 9 only. *)
Definition is_digit (c : ascii) : bool := between "0" "9" c.

(** [str.isspace] on one character, the set that [str.strip] removes:
    TAB, LF, VT, FF, CR, FS, GS, RS, US, SPACE, NEL and NBSP. *)
Definition isspace (c : ascii) : bool :=
  let n := ord c in
  ((9 <=? n) && (n <=? 13) || (28 <=? n) && (n <=? 31)
   || (n =? 32) || (n =? 133) || (n =? 160))%N.

(** [str.lower] on one character: A-Z and the capital letters U+00C0 to
    U+00DE (U+00D7, the multiplication sign, is no letter) move up by 32. *)
Definition lower_char (c : ascii) : ascii :=
  let n := ord c in
  if ((65 <=? n) && (n <=? 90)
      || (192 <=? n) && (n <=? 222) && negb (n =? 215))%N
  then chr (n + 32) else c.

(** [str.upper] on one character.  The result is a string: the sharp s
    (U+00DF) becomes "SS".  The small letters a-z and U+00E0 to U+00FE
    (U+00F7, the division sign, is no letter) move down by 32.  The micro
    sign (U+00B5) and y with diaeresis (U+00FF) have their capital forms at
    U+039C and U+0178, outside the range of [ascii]; they are left in place
    here.  The script applies [upper] to a hexadecimal digest and to a field
    that it compares with one, and neither the real capital forms nor the
    characters left in place are hexadecimal digits. *)
Definition upper_char (c : ascii) : string :=
  let n := ord c in
  if ((97 <=? n) && (n <=? 122)
      || (224 <=? n) && (n <=? 254) && negb (n =? 247))%N
  then String (chr (n - 32)) ""
  else if (n =? 223)%N then "SS"
  else String c "".

(** ** Strings *)

Fixpoint str_map (f : ascii -> ascii) (s : string) : string :=
  match s with
  | "" => ""
  | String c s' => String (f c) (str_map f s')
  end.

Fixpoint str_bind (f : ascii -> string) (s : string) : string :=
  match s with
  | "" => ""
  | String c s' => (f c ++ str_bind f s')%string
  end.

Fixpoint str_filter (p : ascii -> bool) (s : string) : string :=
  match s with
  | "" => ""
  | String c s' => if p c then String c (str_filter p s') else str_filter p s'
  end.

Fixpoint str_exists (p : ascii -> bool) (s : string) : bool :=
  match s with
  | "" => false
  | String c s' => p c || str_exists p s'
  end.

Fixpoint str_forall (p : ascii -> bool) (s : string) : bool :=
  match s with
  | "" => true
  | String c s' => p c && str_forall p s'
  end.

(** [s.lower()] and [s.upper()]. *)
Definition str_lower (s : string) : string := str_map lower_char s.
Definition str_upper (s : string) : string := str_bind upper_char s.

(** [c * n] for a one-character string [c]. *)
Fixpoint str_repeat (c : ascii) (n : nat) : string :=
  match n with
  | O => ""
  | S n' => String c (str_repeat c n')
  end.

(** [s.lstrip()], [s.rstrip()] and [s.strip()] with no argument. *)
Fixpoint lstrip (s : string) : string :=
  match s with
  | "" => ""
  | String c s' => if isspace c then lstrip s' else s
  end.

Fixpoint rstrip (s : string) : string :=
  match s with
  | "" => ""
  | String c s' =>
      match rstrip s' with
      | "" => if isspace c then "" else String c ""
      | t => String c t
      end
  end.

Definition strip (s : string) : string := rstrip (lstrip s).

(** [sub in s]. *)
Fixpoint contains (sub s : string) : bool :=
  String.prefix sub s ||
  match s with
  | "" => false
  | String _ s' => contains sub s'
  end.

(** [x in S] for a collection of strings. *)
Definition str_in (x : string) (S : list string) : bool :=
  existsb (String.eqb x) S.

(** [s[:n]] and [s[n:]] for a non-negative literal [n]. *)
Fixpoint take (n : nat) (s : string) : string :=
  match n, s with
  | S n', String c s' => String c (take n' s')
  | _, _ => ""
  end.

Fixpoint drop (n : nat) (s : string) : string :=
  match n, s with
  | S n', String _ s' => drop n' s'
  | _, _ => s
  end.

(** [s[-1]] of a non-empty string (the last character), [None] on the empty
    string, where Python raises [IndexError]. *)
Fixpoint last_char (s : string) : option ascii :=
  match s with
  | "" => None
  | String c "" => Some c
  | String _ s' => last_char s'
  end.

(** [s.translate(table)] with a table from characters to strings, as
    [str.maketrans] builds it from a dict: a character with an entry is
    replaced, any other is kept. *)
Fixpoint table_get (table : list (ascii * string)) (c : ascii) : option string :=
  match table with
  | [] => None
  | (k, v) :: rest => if Ascii.eqb k c then Some v else table_get rest c
  end.

Definition translate (table : list (ascii * string)) (s : string) : string :=
  str_bind (fun c => match table_get table c with
                     | Some v => v
                     | None => String c ""
                     end) s.

(** [s.split(sep)] for a one-character separator: the fields between the
    occurrences of [sep]; never an empty list. *)
Fixpoint split (sep : ascii) (s : string) : list string :=
  match s with
  | "" => [""]
  | String c s' =>
      if Ascii.eqb c sep then "" :: split sep s'
      else match split sep s' with
           | [] => [String c ""]
           | f :: fs => String c f :: fs
           end
  end.

(** The line boundaries of [str.splitlines] below U+0100: LF, VT, FF, CR,
    FS, GS, RS and NEL (US, U+001F, is none). *)
Definition is_linebreak (c : ascii) : bool :=
  let n := ord c in
  ((10 <=? n) && (n <=? 13) || (28 <=? n) && (n <=? 30) || (n =? 133))%N.

(** [s.splitlines()]: CR followed by LF is one boundary, and a boundary at
    the very end opens no empty last line. *)
Fixpoint splitlines (s : string) : list string :=
  match s with
  | "" => []
  | String c s' =>
      if is_linebreak c then
        "" :: match s' with
              | String d s'' =>
                  if (Ascii.eqb c "013" && Ascii.eqb d "010")%bool
                  then splitlines s'' else splitlines s'
              | "" => []
              end
      else match splitlines s' with
           | [] => [String c ""]
           | l :: ls => String c l :: ls
           end
  end.

(** [str(n)] for an integer. *)
Definition str_of_int (n : Z) : string := NilZero.string_of_int (Z.to_int n).

(** ** [str.encode("utf-8")]

    Bytes are integers in 0..255.  A code point below U+0080 is one byte; the
    others of this range take two. *)
Definition utf8_char (c : ascii) : list Z :=
  let n := Z.of_N (ord c) in
  if n <? 128 then [n]
  else [Z.lor 192 (Z.shiftr n 6); Z.lor 128 (Z.land n 63)].

Fixpoint encode_utf8 (s : string) : list Z :=
  match s with
  | "" => []
  | String c s' => utf8_char c ++ encode_utf8 s'
  end.

(** ** [hashlib.sha1]: SHA-1 as in FIPS 180-4, on 32-bit words held in [Z] *)
Module SHA1.

Definition wrap (x : Z) : Z := x mod 2 ^ 32.
Definition add32 (x y : Z) : Z := wrap (x + y).
Definition not32 (x : Z) : Z := Z.lxor x 4294967295.
Definition rotl (n x : Z) : Z :=
  Z.lor (wrap (Z.shiftl x n)) (Z.shiftr x (32 - n)).

Definition Ch (x y z : Z) : Z := Z.lxor (Z.land x y) (Z.land (not32 x) z).
Definition Parity (x y z : Z) : Z := Z.lxor (Z.lxor x y) z.
Definition Maj (x y z : Z) : Z :=
  Z.lxor (Z.lxor (Z.land x y) (Z.land x z)) (Z.land y z).

(** Round function and round constant of round [t], 0 <= t < 80. *)
Definition f (t : nat) : Z -> Z -> Z -> Z :=
  if (t <? 20)%nat then Ch
  else if (t <? 40)%nat then Parity
  else if (t <? 60)%nat then Maj
  else Parity.

Definition K (t : nat) : Z :=
  if (t <? 20)%nat then 1518500249        (* 5a827999 *)
  else if (t <? 40)%nat then 1859775393   (* 6ed9eba1 *)
  else if (t <? 60)%nat then 2400959708   (* 8f1bbcdc *)
  else 3395469782.                        (* ca62c1d6 *)

(** Padding: the byte 0x80, zero bytes up to 56 modulo 64, and the length
    of the message in bits as 8 big-endian bytes. *)
Fixpoint big_endian (nbytes : nat) (x : Z) : list Z :=
  match nbytes with
  | O => []
  | S k => Z.shiftr x (8 * Z.of_nat k) mod 256 :: big_endian k x
  end.

Definition pad (msg : list Z) : list Z :=
  let l := Z.of_nat (List.length msg) in
  msg ++ [128] ++ repeat 0 (Z.to_nat ((55 - l) mod 64)) ++ big_endian 8 (8 * l).

(** The bytes as big-endian 32-bit words. *)
Fixpoint words (bs : list Z) : list Z :=
  match bs with
  | b0 :: b1 :: b2 :: b3 :: rest =>
      (((b0 * 256 + b1) * 256 + b2) * 256 + b3) :: words rest
  | _ => []
  end.

(** The message schedule, newest word first: [extend n rw] adds [n] words
    to [rw], each from the words 3, 8, 14 and 16 places back. *)
Fixpoint extend (n : nat) (rw : list Z) : list Z :=
  match n with
  | O => rw
  | S k =>
      let w := rotl 1 (Z.lxor (Z.lxor (nth 2 rw 0) (nth 7 rw 0))
                              (Z.lxor (nth 13 rw 0) (nth 15 rw 0))) in
      extend k (w :: rw)
  end.

Definition schedule (block : list Z) : list Z :=
  rev (extend 64 (rev block)).

Definition state : Type := Z * Z * Z * Z * Z.

Definition round (t : nat) (w : Z) (st : state) : state :=
  let '(a, b, c, d, e) := st in
  let tmp := add32 (add32 (add32 (add32 (rotl 5 a) (f t b c d)) e) (K t)) w in
  (tmp, a, rotl 30 b, c, d).

Fixpoint rounds (t : nat) (ws : list Z) (st : state) : state :=
  match ws with
  | [] => st
  | w :: ws' => rounds (S t) ws' (round t w st)
  end.

Definition compress (h : state) (block : list Z) : state :=
  let '(h0, h1, h2, h3, h4) := h in
  let '(a, b, c, d, e) := rounds 0 (schedule block) h in
  (add32 h0 a, add32 h1 b, add32 h2 c, add32 h3 d, add32 h4 e).

Definition H0 : state :=
  (1732584193, 4023233417, 2562383102, 271733878, 3285377520).
  (* 67452301 efcdab89 98badcfe 10325476 c3d2e1f0 *)

(** The blocks of 16 words; [n] bounds the number of blocks. *)
Fixpoint blocks (n : nat) (h : state) (ws : list Z) : state :=
  match n, ws with
  | S k, _ :: _ => blocks k (compress h (firstn 16 ws)) (skipn 16 ws)
  | _, _ => h
  end.

Definition digest (msg : list Z) : state :=
  let ws := words (pad msg) in
  blocks (List.length ws) H0 ws.

(** [hexdigest]: the five words, 8 lower-case hexadecimal digits each. *)
Definition hex_digit (x : Z) : ascii :=
  let d := x mod 16 in
  if d <? 10 then chr (Z.to_N (48 + d)) else chr (Z.to_N (87 + d)).

Definition hex32 (x : Z) : string :=
  String (hex_digit (Z.shiftr x 28)) (String (hex_digit (Z.shiftr x 24))
 (String (hex_digit (Z.shiftr x 20)) (String (hex_digit (Z.shiftr x 16))
 (String (hex_digit (Z.shiftr x 12)) (String (hex_digit (Z.shiftr x 8))
 (String (hex_digit (Z.shiftr x 4)) (String (hex_digit x) ""))))))).

Definition hexdigest (msg : list Z) : string :=
  let '(a, b, c, d, e) := digest msg in
  (hex32 a ++ hex32 b ++ hex32 c ++ hex32 d ++ hex32 e)%string.

End SHA1.

(** ** Configuration and rule sets *)

Definition HIBP_RANGE_API : string := "https://api.pwnedpasswords.com/range/".
Definition USER_AGENT : string := "PasswordAnalyzer/1.0 (your-email@example.com)".
Definition LOG_ENABLED : bool := true.
Definition LOG_FILE : string := "password_analyzer_log.txt".

(** The two sets are Python sets; a list stands for each, and only
    membership and existence are asked of it. *)
Definition COMMON_PASSWORDS : list string :=
  ["123456"; "password"; "12345678"; "qwerty"; "abc123";
   "password1"; "111111"; "123456789"; "12345"; "1234"].

Definition BANNED_SUBSTRINGS : list string :=
  ["password"; "pass"; "admin"; "qwerty"; "letmein"; "welcome"].

Definition LEET_MAP : list (ascii * string) :=
  [("@"%char, "a"); ("0"%char, "o"); ("1"%char, "l"); ("3"%char, "e");
   ("$"%char, "s"); ("5"%char, "s"); ("7"%char, "t"); ("4"%char, "a");
   ("!"%char, "i")].

(** ** Utility functions *)

Definition mask_password_for_log (pw : string) : string :=
  match pw with
  | "" => ""
  | String first _ =>
      let n := String.length pw in
      let last := match last_char pw with Some c => c | None => first end in
      if (n <=? 2)%nat
      then String first (str_repeat "*" (n - 1))
      else (String first (str_repeat "*" (n - 2)) ++ String last "")%string
  end.

Definition normalise_leet (pw : string) : string :=
  let translated := translate LEET_MAP pw in
  let alpha_core := str_lower (str_filter is_alpha_az translated) in
  alpha_core.

(** [re.search(r"\d{3,}", pw)]: three digits in a row somewhere. *)
Fixpoint search_three_digits (s : string) : bool :=
  match s with
  | "" => false
  | String a s' =>
      match s' with
      | String b (String c _) => is_digit a && is_digit b && is_digit c
      | _ => false
      end || search_three_digits s'
  end.

(** [re.search(r"(.)\1\1", pw)]: a character other than the line feed (the
    dot does not match it) three times in a row. *)
Fixpoint search_triple (s : string) : bool :=
  match s with
  | "" => false
  | String a s' =>
      match s' with
      | String b (String c _) =>
          negb (Ascii.eqb a "010") && Ascii.eqb a b && Ascii.eqb a c
      | _ => false
      end || search_triple s'
  end.

Definition sequences : list string :=
  ["1234"; "2345"; "3456"; "4567"; "5678"; "6789"; "7890";
   "qwer"; "asdf"; "zxcv"; "abcd"; "password"].

Definition is_obvious_sequence (pw : string) : bool :=
  if search_three_digits pw then true
  else if search_triple pw then true
  else
    let low := str_lower pw in
    existsb (fun s => contains s low) sequences.

Definition is_common_variant (password : string) : bool :=
  let pw_lower := strip (str_lower password) in
  if str_in pw_lower COMMON_PASSWORDS then true
  else
    let core := normalise_leet password in
    if negb (core =? "")%string && str_in core COMMON_PASSWORDS then true
    else if existsb (fun sub => contains sub core) BANNED_SUBSTRINGS then true
    else if is_obvious_sequence password then true
    else false.

(** ** The outside world

    The script talks to the breach service, reads the clock, prints, and
    appends to the log file.  A program is a tree of these actions; [run]
    plays it against an environment and records what happened. *)

(** What [requests.get] can do: raise a [requests.RequestException]
    (timeout, connection error, ...) or return a response. *)
Inductive HttpOutcome : Type :=
| RequestException
| Response (status_code : Z) (text : string).

Record Request : Type := mkRequest {
  req_url : string;
  req_headers : list (string * string);
  req_timeout : Z
}.

(** The five values [strength_label] takes in [check_strength]; each text
    starts with a pictograph, left out here:
    - [VeryWeakCommon]: "Very Weak (common or predictable pattern detected)"
    - [VeryWeakBreached]: "Very Weak (found in data breaches)"
    - [Strong], [Moderate], [Weak]: "Strong", "Moderate", "Weak". *)
Inductive Label : Type :=
| VeryWeakCommon | VeryWeakBreached | Strong | Moderate | Weak.

(** The five entries [feedback] can receive, in the order of the checks. *)
Inductive Tip : Type :=
| TooShort | AddUppercase | AddLowercase | AddNumber | AddSpecial.

(** The calls of [print], one constructor for each text. *)
Inductive Message : Type :=
| MsgNoPassword                 (* No password entered. *)
| MsgStrength (l : Label)       (* Password Strength: {strength_label} *)
| MsgScore (score : Z)          (* Score: {score} / 10 *)
| MsgBar (bar : string)
| MsgSuggestCommon              (* Suggestions: avoid common words ... *)
| MsgWarnNoBreachCheck          (* Warning: Could not check password ... *)
| MsgSeen (pwned_count : Z)     (* Seen {pwned_count} times in breaches. *)
| MsgSuggestBreached            (* Suggestions: do not reuse breached ... *)
| MsgSuggestions                (* Suggestions: *)
| MsgTip (t : Tip)
| MsgGreat.                     (* Great! Your password meets ... *)

(** The fields of the line that [log_result] formats:
    timestamp, masked password, "{score}/10", label, "pwned:{pwned_str}". *)
Record LogLine : Type := mkLogLine {
  log_timestamp : string;
  log_masked_pw : string;
  log_score : Z;
  log_label : Label;
  log_pwned_str : string
}.

Inductive Prog (A : Type) : Type :=
| Ret (a : A)
| Get (r : Request) (k : HttpOutcome -> Prog A)
| Now (k : string -> Prog A)
| Print (m : Message) (k : Prog A)
| Append (file : string) (line : LogLine) (k : Prog A).

Arguments Ret {A} a.
Arguments Get {A} r k.
Arguments Now {A} k.
Arguments Print {A} m k.
Arguments Append {A} file line k.

Fixpoint bind {A B : Type} (p : Prog A) (f : A -> Prog B) : Prog B :=
  match p with
  | Ret a => f a
  | Get r k => Get r (fun o => bind (k o) f)
  | Now k => Now (fun t => bind (k t) f)
  | Print m k => Print m (bind k f)
  | Append file line k => Append file line (bind k f)
  end.

Notation "x <- p ;; q" := (bind p (fun x => q))
  (at level 61, p at next level, right associativity).
Notation "p ;; q" := (bind p (fun _ => q))
  (at level 61, right associativity).

Definition print (m : Message) : Prog unit := Print m (Ret tt).

Record Env : Type := mkEnv {
  http_get : Request -> HttpOutcome;   (* the network and the service *)
  utc_now : string                     (* the clock, in ISO format *)
}.

Inductive Event : Type :=
| Requested (r : Request) (o : HttpOutcome)
| Printed (m : Message)
| Logged (file : string) (line : LogLine).

(** A failure to write the log file is swallowed by [log_result], so the
    program goes on the same way whether or not the line reached the file. *)
Fixpoint run {A : Type} (env : Env) (p : Prog A) : list Event * A :=
  match p with
  | Ret a => ([], a)
  | Get r k =>
      let o := http_get env r in
      let '(tr, a) := run env (k o) in (Requested r o :: tr, a)
  | Now k => run env (k (utc_now env))
  | Print m k => let '(tr, a) := run env k in (Printed m :: tr, a)
  | Append file line k =>
      let '(tr, a) := run env k in (Logged file line :: tr, a)
  end.

Definition trace {A : Type} (env : Env) (p : Prog A) : list Event :=
  fst (run env p).
Definition result {A : Type} (env : Env) (p : Prog A) : A :=
  snd (run env p).

(** The requests that left the machine, and the lines that were logged. *)
Definition requests (tr : list Event) : list Request :=
  flat_map (fun e => match e with Requested r _ => [r] | _ => [] end) tr.
Definition logged (tr : list Event) : list LogLine :=
  flat_map (fun e => match e with Logged _ l => [l] | _ => [] end) tr.
Definition printed (tr : list Event) : list Message :=
  flat_map (fun e => match e with Printed m => [m] | _ => [] end) tr.

(** ** [int(s)] on a string

    White space around the number is dropped, then comes an optional sign and
    decimal digits, single underscores allowed between two digits.  Anything
    else raises [ValueError] ([None] here), and so does a number with more
    digits than the interpreter's limit ([sys.get_int_max_str_digits()],
    4300 unless configured otherwise, 0 for no limit). *)

(** The characters [int] takes for white space: the file, group, record and
    unit separators (U+001C to U+001F) are not among them. *)
Definition int_space (c : ascii) : bool :=
  let n := ord c in
  ((9 <=? n) && (n <=? 13) || (n =? 32) || (n =? 133) || (n =? 160))%N.

Fixpoint lstrip_with (p : ascii -> bool) (s : string) : string :=
  match s with
  | "" => ""
  | String c s' => if p c then lstrip_with p s' else s
  end.

Fixpoint rstrip_with (p : ascii -> bool) (s : string) : string :=
  match s with
  | "" => ""
  | String c s' =>
      match rstrip_with p s' with
      | "" => if p c then "" else String c ""
      | t => String c t
      end
  end.

Definition digit_value (c : ascii) : Z := Z.of_N (ord c) - 48.

(** [after_digit] tells whether the character just read was a digit: an
    underscore may only follow one, and the string may only end on one. *)
Fixpoint digits_value (acc : Z) (after_digit : bool) (s : string) : option Z :=
  match s with
  | "" => if after_digit then Some acc else None
  | String c s' =>
      if is_digit c then digits_value (10 * acc + digit_value c) true s'
      else if Ascii.eqb c "_" && after_digit then digits_value acc false s'
      else None
  end.

Section Interpreter.

Variable int_max_str_digits : nat.

Definition py_int (s : string) : option Z :=
  let t := rstrip_with int_space (lstrip_with int_space s) in
  let '(negative, body) :=
    match t with
    | String sign b =>
        if Ascii.eqb sign "-" then (true, b)
        else if Ascii.eqb sign "+" then (false, b)
        else (false, t)
    | "" => (false, t)
    end in
  match digits_value 0 false body with
  | None => None
  | Some v =>
      let ndigits := String.length (str_filter is_digit body) in
      if ((0 <? int_max_str_digits) && (int_max_str_digits <? ndigits))%nat
      then None
      else Some (if negative then - v else v)
  end.

(** ** HIBP k-anonymity check *)

Definition sha1_hex_upper (password : string) : string :=
  str_upper (SHA1.hexdigest (encode_utf8 password)).

Definition hash_prefix (password : string) : string :=
  take 5 (sha1_hex_upper password).
Definition hash_suffix (password : string) : string :=
  drop 5 (sha1_hex_upper password).

(** The loop over [resp.text.splitlines()]. *)
Fixpoint scan_lines (suffix : string) (lines : list string) : Z :=
  match lines with
  | [] => 0
  | line :: rest =>
      match split ":" line with
      | [p0; p1] =>
          let returned_suffix := strip p0 in
          let count := strip p1 in
          if (str_upper returned_suffix =? suffix)%string then
            match py_int count with
            | Some n => n
            | None => 1
            end
          else scan_lines suffix rest
      | _ => scan_lines suffix rest
      end
  end.

(** [None] is Python's [None]; [Some n] is the integer [n]. *)
Definition check_pwned (password user_agent : string) : Prog (option Z) :=
  let sha1 := sha1_hex_upper password in
  let prefix := take 5 sha1 in
  let suffix := drop 5 sha1 in
  let headers := [("User-Agent", user_agent)] in
  Get (mkRequest (HIBP_RANGE_API ++ prefix)%string headers 10)
    (fun resp =>
       match resp with
       | RequestException => Ret None
       | Response status_code text =>
           if negb (status_code =? 200) then Ret None
           else Ret (Some (scan_lines suffix (splitlines text)))
       end).

(** ** Safe logging *)

Definition log_result (masked_pw : string) (score : Z)
    (strength_label : Label) (pwned_count : option Z) : Prog unit :=
  Now (fun timestamp =>
    let pwned_str := match pwned_count with
                     | None => "unknown"
                     | Some n => str_of_int n
                     end in
    let line := mkLogLine timestamp masked_pw score strength_label pwned_str in
    if LOG_ENABLED then Append LOG_FILE line (Ret tt) else Ret tt).

(** ** Main scoring function *)

(** The character class of the last check:
    ! @ # $ % ^ & * ( ) , . ? (double quote) : { } | < > ~ ` + = _ - *)
Definition is_special (c : ascii) : bool :=
  existsb (Ascii.eqb c)
    (list_ascii_of_string "!@#$%^&*(),.?:{}|<>~`+=_-" ++ ["034"%char]).

(** Step 3 of [check_strength] up to the rounding: the score and the
    feedback, in the order of the checks. *)
Definition scoring_rules (password : string) : Z * list Tip :=
  let score := 0 in
  let feedback := [] in
  let '(score, feedback) :=
    if (12 <=? String.length password)%nat then (score + 2, feedback)
    else if (8 <=? String.length password)%nat then (score + 1, feedback)
    else (score, feedback ++ [TooShort]) in
  let '(score, feedback) :=
    if str_exists is_upper_az password then (score + 2, feedback)
    else (score, feedback ++ [AddUppercase]) in
  let '(score, feedback) :=
    if str_exists is_lower_az password then (score + 2, feedback)
    else (score, feedback ++ [AddLowercase]) in
  let '(score, feedback) :=
    if str_exists is_digit password then (score + 2, feedback)
    else (score, feedback ++ [AddNumber]) in
  let '(score, feedback) :=
    if str_exists is_special password then (score + 2, feedback)
    else (score, feedback ++ [AddSpecial]) in
  let score := if score mod 2 =? 1 then score + 1 else score in
  (score, feedback).

Definition label_of_score (score : Z) : Label :=
  if 9 <=? score then Strong
  else if 6 <=? score then Moderate
  else Weak.

Definition bar_of_score (score : Z) : string :=
  let filled_slots := Z.to_nat (score / 2) in
  let total_slots := 5%nat in
  ("[" ++ str_repeat "#" filled_slots
       ++ str_repeat "-" (total_slots - filled_slots) ++ "]")%string.

Fixpoint print_tips (feedback : list Tip) : Prog unit :=
  match feedback with
  | [] => Ret tt
  | tip :: rest => print (MsgTip tip) ;; print_tips rest
  end.

Definition check_strength (password : string) (use_hibp : bool) : Prog unit :=
  if (password =? "")%string then print MsgNoPassword
  else if is_common_variant password then
    (* 1) common-variant check *)
    let strength_label := VeryWeakCommon in
    let score := 0 in
    let bar := "[----------]" in
    print (MsgStrength strength_label) ;;
    print (MsgScore score) ;;
    print (MsgBar bar) ;;
    print MsgSuggestCommon ;;
    log_result (mask_password_for_log password) score strength_label (Some 0)
  else
    (* 2) optional HIBP check *)
    pwned_count <-
      (if use_hibp then check_pwned password USER_AGENT else Ret None) ;;
    let scoring :=
      (* 3) scoring rules *)
      let '(score, feedback) := scoring_rules password in
      let strength_label := label_of_score score in
      let bar := bar_of_score score in
      print (MsgStrength strength_label) ;;
      print (MsgScore score) ;;
      print (MsgBar bar) ;;
      (match feedback with
       | [] => print MsgGreat
       | _ => print MsgSuggestions ;; print_tips feedback
       end) ;;
      log_result (mask_password_for_log password) score strength_label
        pwned_count in
    if use_hibp then
      match pwned_count with
      | None => print MsgWarnNoBreachCheck ;; scoring
      | Some n =>
          if 0 <? n then
            let strength_label := VeryWeakBreached in
            let score := 0 in
            let bar := "[----------]" in
            print (MsgStrength strength_label) ;;
            print (MsgSeen n) ;;
            print (MsgScore score) ;;
            print (MsgBar bar) ;;
            print MsgSuggestBreached ;;
            log_result (mask_password_for_log password) score strength_label
              pwned_count
          else scoring
      end
    else scoring.

End Interpreter.

(** ** Vocabulary of the statements

    Requests, outcomes, records and events as the properties below speak of
    them, and the environments used in the examples. *)

(** The one request of [check_pwned]. *)
Definition range_request (password user_agent : string) : Request :=
  mkRequest (HIBP_RANGE_API ++ hash_prefix password)%string
            [("User-Agent", user_agent)] 10.

(** What [check_pwned] makes of the outcome of that request. *)
Definition pwned_of_outcome (lim : nat) (password : string) (o : HttpOutcome)
  : option Z :=
  match o with
  | RequestException => None
  | Response status_code text =>
      if status_code =? 200
      then Some (scan_lines lim (hash_suffix password) (splitlines text))
      else None
  end.

(** The lookup failed: the transport raised, or the status is not 200. *)
Definition lookup_failed (o : HttpOutcome) : Prop :=
  match o with
  | RequestException => True
  | Response status_code _ => status_code <> 200
  end.

Definition env_unavailable : Env :=
  mkEnv (fun _ => Response 503 "Service Unavailable") "2024-01-01T00:00:00+00:00".

Definition env_timeout : Env :=
  mkEnv (fun _ => RequestException) "2024-01-01T00:00:00+00:00".

(** A hexadecimal digit of the digest, once upper-cased, is one of the 16
    characters 0-9, A-F. *)
Definition is_upper_hex (c : ascii) : bool := between "0" "9" c || between "A" "F" c.

(** The well-formed records of a response body, in order: the lines with
    exactly one colon, as suffix and count field with the white space around
    each removed. *)
Definition records (text : string) : list (string * string) :=
  flat_map (fun line => match split ":" line with
                        | [p0; p1] => [(strip p0, strip p1)]
                        | _ => []
                        end) (splitlines text).

(** Equality of two strings up to letter case. *)
Definition same_ignoring_case (a b : string) : bool :=
  (str_upper a =? str_upper b)%string.

(** The first record whose suffix is the given one, case ignored. *)
Definition first_match (suffix : string) (recs : list (string * string))
  : option (string * string) :=
  find (fun r => same_ignoring_case (fst r) suffix) recs.

Definition has_minus (s : string) : bool := str_exists (Ascii.eqb "-") s.

Definition env_negative : Env :=
  mkEnv (fun _ => Response 200 "E364706816ABA3E25717850C26C9CD0D89D:-5")
        "2024-01-01T00:00:00+00:00".

Definition env_listed : Env :=
  mkEnv (fun _ => Response 200
     "0018A45C4D1DEF81644B54AB7F969B88D65:3
ignored line
e364706816aba3e25717850c26c9cd0d89d : 1_042
E364706816ABA3E25717850C26C9CD0D89D:7")
        "2024-01-01T00:00:00+00:00".

(** What stage C prints and logs. *)
Definition stage_c_events (env : Env) (password : string)
    (pwned_count : option Z) : list Event :=
  let score := fst (scoring_rules password) in
  let feedback := snd (scoring_rules password) in
  [Printed (MsgStrength (label_of_score score));
   Printed (MsgScore score);
   Printed (MsgBar (bar_of_score score))]
  ++ match feedback with
     | [] => [Printed MsgGreat]
     | _ => Printed MsgSuggestions :: map (fun t => Printed (MsgTip t)) feedback
     end
  ++ [Logged LOG_FILE
        (mkLogLine (utc_now env) (mask_password_for_log password) score
           (label_of_score score)
           match pwned_count with None => "unknown" | Some n => str_of_int n end)].

Definition stage_a_events (env : Env) (password : string) : list Event :=
  [Printed (MsgStrength VeryWeakCommon);
   Printed (MsgScore 0);
   Printed (MsgBar "[----------]");
   Printed MsgSuggestCommon;
   Logged LOG_FILE
     (mkLogLine (utc_now env) (mask_password_for_log password) 0
        VeryWeakCommon "0")].

Definition stage_b_events (env : Env) (password : string) (n : Z) : list Event :=
  [Printed (MsgStrength VeryWeakBreached);
   Printed (MsgSeen n);
   Printed (MsgScore 0);
   Printed (MsgBar "[----------]");
   Printed MsgSuggestBreached;
   Logged LOG_FILE
     (mkLogLine (utc_now env) (mask_password_for_log password) 0
        VeryWeakBreached (str_of_int n))].

(** The scores and the labels that a run shows, printed or logged. *)
Definition scores (tr : list Event) : list Z :=
  flat_map (fun e => match e with
                     | Printed (MsgScore s) => [s]
                     | Logged _ line => [log_score line]
                     | _ => []
                     end) tr.

Definition labels (tr : list Event) : list Label :=
  flat_map (fun e => match e with
                     | Printed (MsgStrength l) => [l]
                     | Logged _ line => [log_label line]
                     | _ => []
                     end) tr.

Definition env_clean : Env :=
  mkEnv (fun _ => Response 200 "0018A45C4D1DEF81644B54AB7F969B88D65:3")
        "2024-01-01T00:00:00+00:00".

(** The five basic checks of the scoring rules, in their order, with the
    lower of the two length thresholds. *)
Definition basic_checks (password : string) : list bool :=
  [(8 <=? String.length password)%nat;
   str_exists is_upper_az password;
   str_exists is_lower_az password;
   str_exists is_digit password;
   str_exists is_special password].

Definition count_true (l : list bool) : nat :=
  List.length (filter (fun b => b) l).

(** The number of occurrences of a character. *)
Definition count_char (c : ascii) (s : string) : nat :=
  String.length (str_filter (Ascii.eqb c) s).

(** A log line with another pwned field. *)
Definition with_pwned_str (pwned_str : string) (line : LogLine) : LogLine :=
  mkLogLine (log_timestamp line) (log_masked_pw line) (log_score line)
            (log_label line) pwned_str.

(** The pwned field that [log_result] writes. *)
Definition pwned_field (pwned_count : option Z) : string :=
  match pwned_count with None => "unknown" | Some n => str_of_int n end.

Definition env_breached : Env :=
  mkEnv (fun _ => Response 200 "39B4266DF6CBF9D9DEA1300736C533EA397:1234")
        "2024-01-01T00:00:00+00:00".

(** ** The pattern detector in the words of the specification

    The four conditions of section 4.2, stated without the functions of the
    script: membership is [In], "contains as a literal substring" is
    [spec_substring], and the obvious-sequence shape is the disjunction of
    its three descriptions. *)









(** * Properties *)

(** ** Test vectors *)

Example sha1_test_vectors :
  sha1_hex_upper "abc" = "A9993E364706816ABA3E25717850C26C9CD0D89D" /\
  sha1_hex_upper "" = "DA39A3EE5E6B4B0D3255BFEF95601890AFD80709" /\
  sha1_hex_upper (String (chr 233) "") = "BF15BE717AC1B080B4F1C456692825891FF5073D" /\
  sha1_hex_upper "The quick brown fox jumps over the lazy dog"
  = "2FD4E1C67A2D28FCED849EE1BB76E7391B93EB12".
Proof. vm_compute. repeat split; reflexivity. Qed.

Example splitlines_example :
  splitlines (String "a" (String "013" (String "010" (String "b" (String "010" ""))))) = ["a"; "b"] /\
  split ":" "ab:cd:" = ["ab"; "cd"; ""] /\
  strip "  a b  " = "a b".
Proof. repeat split; reflexivity. Qed.

Example py_int_examples :
  py_int 4300 "42" = Some 42 /\ py_int 4300 "-5" = Some (-5) /\
  py_int 4300 "1_000" = Some 1000 /\ py_int 4300 "1__0" = None /\
  py_int 4300 "" = None /\ py_int 4300 "12a" = None.
Proof. repeat split; reflexivity. Qed.

Example is_common_variant_examples :
  is_common_variant "123456" = true /\
  is_common_variant "P@ssw0rd" = true /\
  is_common_variant "aaaaaaaa" = true /\
  is_common_variant "short1" = false /\
  is_common_variant "Tr0ub4dor&3xyz!" = false.
Proof. vm_compute. repeat split; reflexivity. Qed.

(** ** Programs and traces *)

Lemma run_bind {A B : Type} (env : Env) (p : Prog A) (f : A -> Prog B) :
  run env (bind p f) =
  (trace env p ++ trace env (f (result env p)), result env (f (result env p))).
Proof.
  unfold trace, result.
  induction p as [a | r k IH | k IH | m k IH | file line k IH]; simpl.
  - destruct (run env (f a)); reflexivity.
  - rewrite IH. destruct (run env (k (http_get env r))); reflexivity.
  - apply IH.
  - rewrite IH. destruct (run env k); reflexivity.
  - rewrite IH. destruct (run env k); reflexivity.
Qed.

Lemma trace_bind {A B : Type} (env : Env) (p : Prog A) (f : A -> Prog B) :
  trace env (bind p f) = trace env p ++ trace env (f (result env p)).
Proof. unfold trace at 1. rewrite run_bind. reflexivity. Qed.

Lemma result_bind {A B : Type} (env : Env) (p : Prog A) (f : A -> Prog B) :
  result env (bind p f) = result env (f (result env p)).
Proof. unfold result at 1. rewrite run_bind. reflexivity. Qed.

Lemma trace_print (env : Env) (m : Message) : trace env (print m) = [Printed m].
Proof. reflexivity. Qed.

Lemma trace_log_result (env : Env) masked score label pwned :
  trace env (log_result masked score label pwned) =
  [Logged LOG_FILE
     (mkLogLine (utc_now env) masked score label
        match pwned with None => "unknown" | Some n => str_of_int n end)].
Proof. reflexivity. Qed.

Lemma trace_print_tips (env : Env) (feedback : list Tip) :
  trace env (print_tips feedback) = map (fun t => Printed (MsgTip t)) feedback.
Proof.
  induction feedback as [| t rest IH]; [reflexivity |].
  change (print_tips (t :: rest)) with (print (MsgTip t) ;; print_tips rest).
  rewrite trace_bind, trace_print, IH. reflexivity.
Qed.

Lemma run_check_pwned (lim : nat) (env : Env) (password user_agent : string) :
  run env (check_pwned lim password user_agent) =
  let req := range_request password user_agent in
  ([Requested req (http_get env req)],
   pwned_of_outcome lim password (http_get env req)).
Proof.
  unfold check_pwned, range_request, hash_prefix, hash_suffix, pwned_of_outcome.
  cbn [run].
  destruct (http_get env _) as [| status text]; [reflexivity |].
  destruct (status =? 200); reflexivity.
Qed.

(** C1.  Whenever the range request fails at the transport level or is
    answered with a status other than 200, [check_pwned] returns [None]
    (unknown); in particular it does not return the count 0, which is a
    different value. *)
Theorem check_pwned_failure_is_unknown :
  forall (lim : nat) (env : Env) (password user_agent : string),
    lookup_failed (http_get env (range_request password user_agent)) ->
    result env (check_pwned lim password user_agent) = None /\
    result env (check_pwned lim password user_agent) <> Some 0 /\
    (None : option Z) <> Some 0.
Proof.
  intros lim env password user_agent Hfail.
  assert (Hres : result env (check_pwned lim password user_agent) = None).
  { unfold result. rewrite run_check_pwned. cbn [snd].
    destruct (http_get env _) as [| status text]; [reflexivity |].
    cbn in Hfail |- *.
    destruct (Z.eqb_spec status 200) as [E | _]; [contradiction | reflexivity]. }
  rewrite Hres. repeat split; discriminate.
Qed.

Lemma check_pwned_failure_is_unknown_witness :
  result env_unavailable (check_pwned 4300 "correct horse" USER_AGENT) = None /\
  result env_timeout (check_pwned 4300 "correct horse" USER_AGENT) = None.
Proof.
  split.
  - apply (check_pwned_failure_is_unknown 4300 env_unavailable
             "correct horse" USER_AGENT).
    simpl. discriminate.
  - apply (check_pwned_failure_is_unknown 4300 env_timeout
             "correct horse" USER_AGENT).
    simpl. exact I.
Defined.

(** ** The digest and its two parts *)

Lemma str_length_app (a b : string) :
  String.length (a ++ b) = (String.length a + String.length b)%nat.
Proof. induction a as [| c a IH]; simpl; [reflexivity | now rewrite IH]. Qed.

Lemma str_bind_app (f : ascii -> string) (a b : string) :
  str_bind f (a ++ b)%string = (str_bind f a ++ str_bind f b)%string.
Proof.
  induction a as [| c a IH]; simpl; [reflexivity |].
  rewrite IH. clear IH. induction (f c) as [| d t IHt]; simpl; [reflexivity |].
  now rewrite IHt.
Qed.

Lemma upper_hex_digit (x : Z) :
  exists c, upper_char (SHA1.hex_digit x) = String c "" /\ is_upper_hex c = true.
Proof.
  unfold SHA1.hex_digit.
  assert (H : 0 <= x mod 16 < 16) by (apply Z.mod_pos_bound; lia).
  set (d := x mod 16) in *. clearbody d.
  assert (E : d = 0 \/ d = 1 \/ d = 2 \/ d = 3 \/ d = 4 \/ d = 5 \/ d = 6 \/
              d = 7 \/ d = 8 \/ d = 9 \/ d = 10 \/ d = 11 \/ d = 12 \/
              d = 13 \/ d = 14 \/ d = 15) by lia.
  repeat (destruct E as [-> | E]); try subst d;
    (eexists; split; [vm_compute; reflexivity | reflexivity]).
Qed.

Lemma upper_hex32 (x : Z) :
  String.length (str_upper (SHA1.hex32 x)) = 8%nat /\
  str_forall is_upper_hex (str_upper (SHA1.hex32 x)) = true.
Proof.
  unfold SHA1.hex32, str_upper. cbn [str_bind].
  repeat match goal with
         | |- context [upper_char (SHA1.hex_digit ?y)] =>
             let c := fresh "c" in
             let E := fresh "E" in
             let Hc := fresh "Hc" in
             destruct (upper_hex_digit y) as [c [E Hc]]; rewrite E; clear E
         end.
  cbn [append String.length str_forall].
  split; [reflexivity |].
  repeat match goal with H : is_upper_hex _ = true |- _ => rewrite H; clear H end.
  reflexivity.
Qed.

Lemma str_forall_app (p : ascii -> bool) (a b : string) :
  str_forall p (a ++ b) = str_forall p a && str_forall p b.
Proof.
  induction a as [| c a IH]; simpl; [reflexivity |].
  rewrite IH. now rewrite andb_assoc.
Qed.

Lemma sha1_hex_upper_shape (password : string) :
  String.length (sha1_hex_upper password) = 40%nat /\
  str_forall is_upper_hex (sha1_hex_upper password) = true.
Proof.
  unfold sha1_hex_upper, SHA1.hexdigest.
  destruct (SHA1.digest (encode_utf8 password)) as [[[[a b] c] d] e].
  unfold str_upper. rewrite !str_bind_app.
  fold (str_upper (SHA1.hex32 a)) (str_upper (SHA1.hex32 b))
       (str_upper (SHA1.hex32 c)) (str_upper (SHA1.hex32 d))
       (str_upper (SHA1.hex32 e)).
  rewrite !str_length_app, !str_forall_app.
  destruct (upper_hex32 a) as [-> ->], (upper_hex32 b) as [-> ->],
           (upper_hex32 c) as [-> ->], (upper_hex32 d) as [-> ->],
           (upper_hex32 e) as [-> ->].
  split; reflexivity.
Qed.

Lemma take_drop (n : nat) (s : string) : (take n s ++ drop n s)%string = s.
Proof.
  revert s; induction n as [| n IH]; intros [| c s]; simpl; try reflexivity.
  now rewrite IH.
Qed.

Lemma take_length (n : nat) (s : string) :
  (n <= String.length s)%nat -> String.length (take n s) = n.
Proof.
  revert s; induction n as [| n IH]; intros [| c s] H; simpl in *;
    try reflexivity; try lia.
  rewrite IH; [reflexivity | lia].
Qed.

Lemma drop_length (n : nat) (s : string) :
  String.length (drop n s) = (String.length s - n)%nat.
Proof.
  revert s; induction n as [| n IH]; intros [| c s]; simpl; try reflexivity.
  apply IH.
Qed.

Lemma hash_parts (password : string) :
  sha1_hex_upper password = (hash_prefix password ++ hash_suffix password)%string /\
  String.length (hash_prefix password) = 5%nat /\
  String.length (hash_suffix password) = 35%nat.
Proof.
  unfold hash_prefix, hash_suffix.
  destruct (sha1_hex_upper_shape password) as [Hlen _].
  rewrite take_drop, take_length, drop_length, Hlen by lia.
  repeat split; reflexivity.
Qed.

(** C2.  The request that [check_pwned] sends is built from the first five
    characters of the upper-case hexadecimal SHA-1 digest of the UTF-8
    encoding of the password, and from nothing else of the password: two
    passwords whose digests start with the same five characters cause the
    same request (URL, headers and timeout), whatever the service answers;
    it is the only request; and the digest is these 5 characters followed by
    the 35 that stay with the caller. *)
Theorem check_pwned_sends_prefix_only :
  forall (lim : nat) (env1 env2 : Env) (p1 p2 user_agent : string),
    hash_prefix p1 = hash_prefix p2 ->
    requests (trace env1 (check_pwned lim p1 user_agent)) =
    requests (trace env2 (check_pwned lim p2 user_agent)) /\
    requests (trace env1 (check_pwned lim p1 user_agent)) =
      [mkRequest (HIBP_RANGE_API ++ hash_prefix p1)%string
                 [("User-Agent", user_agent)] 10] /\
    sha1_hex_upper p1 = (hash_prefix p1 ++ hash_suffix p1)%string /\
    String.length (hash_prefix p1) = 5%nat /\
    String.length (hash_suffix p1) = 35%nat.
Proof.
  intros lim env1 env2 p1 p2 user_agent Hprefix.
  unfold trace. rewrite !run_check_pwned. cbn [fst requests flat_map app].
  unfold range_request.
  split; [rewrite Hprefix; reflexivity |]. split; [reflexivity |].
  apply hash_parts.
Qed.

Lemma check_pwned_sends_prefix_only_witness :
  "hunter870" <> "hunter1471" /\
  hash_suffix "hunter870" <> hash_suffix "hunter1471" /\
  requests (trace env_timeout (check_pwned 4300 "hunter870" USER_AGENT)) =
  requests (trace env_unavailable (check_pwned 4300 "hunter1471" USER_AGENT)).
Proof.
  split; [discriminate |].
  split; [vm_compute; discriminate |].
  apply (check_pwned_sends_prefix_only 4300 env_timeout env_unavailable
           "hunter870" "hunter1471" USER_AGENT).
  vm_compute. reflexivity.
Defined.

(** ** Reading the response *)

Lemma upper_char_fixed (c : ascii) :
  is_upper_hex c = true -> upper_char c = String c "".
Proof.
  destruct c as [[] [] [] [] [] [] [] []]; intros H;
    first [discriminate H | reflexivity].
Qed.

Lemma str_upper_fixed (s : string) :
  str_forall is_upper_hex s = true -> str_upper s = s.
Proof.
  unfold str_upper. induction s as [| c s IH]; cbn [str_forall str_bind];
    [reflexivity |].
  intros H. apply andb_prop in H. destruct H as [Hc Hs].
  rewrite (upper_char_fixed c Hc), IH by exact Hs. reflexivity.
Qed.

Lemma str_forall_drop (p : ascii -> bool) (n : nat) (s : string) :
  str_forall p s = true -> str_forall p (drop n s) = true.
Proof.
  revert s; induction n as [| n IH]; intros [| c s] H; simpl in *; try exact H.
  apply IH. apply andb_prop in H. apply H.
Qed.

Lemma hash_suffix_upper (password : string) :
  str_upper (hash_suffix password) = hash_suffix password.
Proof.
  apply str_upper_fixed. unfold hash_suffix. apply str_forall_drop.
  apply sha1_hex_upper_shape.
Qed.

Lemma scan_lines_first_match (lim : nat) (suffix : string) (lines : list string) :
  str_upper suffix = suffix ->
  scan_lines lim suffix lines =
  match first_match suffix
          (flat_map (fun line => match split ":" line with
                                 | [p0; p1] => [(strip p0, strip p1)]
                                 | _ => []
                                 end) lines) with
  | Some (_, count) => match py_int lim count with Some n => n | None => 1 end
  | None => 0
  end.
Proof.
  intros Hup. unfold first_match, same_ignoring_case. rewrite Hup.
  induction lines as [| line rest IH]; [reflexivity |].
  cbn [scan_lines flat_map].
  destruct (split ":" line) as [| p0 [| p1 [| p2 ps]]]; cbn [app]; try exact IH.
  cbn [find fst].
  destruct (str_upper (strip p0) =? suffix)%string; [reflexivity | exact IH].
Qed.

(** [int] never yields a negative number from a field without a minus. *)
Lemma digit_value_nonneg (c : ascii) : is_digit c = true -> 0 <= digit_value c.
Proof.
  unfold is_digit, between, digit_value. intros H.
  apply andb_prop in H. destruct H as [H _]. apply N.leb_le in H.
  change (ord "0") with 48%N in H. lia.
Qed.

Lemma digits_value_nonneg (s : string) :
  forall acc after v, 0 <= acc -> digits_value acc after s = Some v -> 0 <= v.
Proof.
  induction s as [| c s IH]; intros acc after v Hacc H; cbn [digits_value] in H.
  - destruct after; [injection H as <-; exact Hacc | discriminate].
  - destruct (is_digit c) eqn:Hd.
    + apply IH in H; [exact H |]. pose proof (digit_value_nonneg c Hd). lia.
    + destruct (Ascii.eqb c "_" && after); [| discriminate].
      apply IH in H; assumption.
Qed.

Lemma str_exists_lstrip (p q : ascii -> bool) (s : string) :
  str_exists p (lstrip_with q s) = true -> str_exists p s = true.
Proof.
  induction s as [| c s IH]; simpl; [trivial |].
  destruct (q c); [| trivial]. intros H. rewrite (IH H). apply orb_true_r.
Qed.

Lemma str_exists_rstrip (p q : ascii -> bool) (s : string) :
  str_exists p (rstrip_with q s) = true -> str_exists p s = true.
Proof.
  induction s as [| c s IH]; simpl; [trivial |].
  destruct (rstrip_with q s) as [| d t] eqn:E.
  - destruct (q c); simpl; [discriminate |].
    rewrite orb_false_r. intros ->. reflexivity.
  - simpl. intros H. apply orb_prop in H. destruct H as [-> | H]; [reflexivity |].
    simpl in IH. rewrite (IH H). apply orb_true_r.
Qed.

Lemma py_int_nonneg (lim : nat) (s : string) (n : Z) :
  has_minus s = false -> py_int lim s = Some n -> 0 <= n.
Proof.
  unfold py_int, has_minus. intros Hminus.
  set (t := rstrip_with int_space (lstrip_with int_space s)).
  assert (Ht : str_exists (Ascii.eqb "-") t = false).
  { destruct (str_exists (Ascii.eqb "-") t) eqn:E; [| reflexivity].
    apply str_exists_rstrip, str_exists_lstrip in E. congruence. }
  clearbody t.
  assert (Hpos : forall body, match digits_value 0 false body with
    | Some v => if ((0 <? lim)%nat && (lim <? String.length (str_filter is_digit body))%nat)%bool
                then None else Some v
    | None => None end = Some n -> 0 <= n).
  { intros body H. destruct (digits_value 0 false body) as [v |] eqn:E; [| discriminate].
    destruct (_ && _); [discriminate |]. injection H as <-.
    eapply digits_value_nonneg; [| exact E]. lia. }
  destruct t as [| sign b].
  - apply Hpos.
  - cbn [str_exists] in Ht. apply orb_false_elim in Ht. destruct Ht as [Hsign _].
    rewrite Ascii.eqb_sym in Hsign. rewrite Hsign.
    destruct (Ascii.eqb sign "+"); apply Hpos.
Qed.

(** C3 (as the code has it).  On a response with status 200, [check_pwned]
    returns an integer: the count field of the first well-formed record
    (a line with exactly one colon) whose suffix, white space trimmed, equals
    the suffix of the digest up to letter case, as [int] reads it (an
    optional sign and decimal digits); 1 when [int] rejects that field; 0
    when no record matches.  The integer is not negative as long as the
    count field that was read holds no minus sign. *)
Theorem check_pwned_reads_first_match :
  forall (lim : nat) (env : Env) (password user_agent text : string),
    http_get env (range_request password user_agent) = Response 200 text ->
    let hit := first_match (hash_suffix password) (records text) in
    result env (check_pwned lim password user_agent) =
      Some match hit with
           | Some (_, count) =>
               match py_int lim count with Some n => n | None => 1 end
           | None => 0
           end /\
    forall n, result env (check_pwned lim password user_agent) = Some n ->
              (forall s count, hit = Some (s, count) -> has_minus count = false) ->
              0 <= n.
Proof.
  intros lim env password user_agent text Hresp hit.
  assert (Hres : result env (check_pwned lim password user_agent) =
                 Some match hit with
                      | Some (_, count) =>
                          match py_int lim count with Some n => n | None => 1 end
                      | None => 0
                      end).
  { unfold result. rewrite run_check_pwned. cbn [snd]. rewrite Hresp.
    cbn [pwned_of_outcome Z.eqb Pos.eqb].
    rewrite scan_lines_first_match by apply hash_suffix_upper. reflexivity. }
  split; [exact Hres |].
  intros n Hn Hfield. rewrite Hres in Hn. injection Hn as <-.
  destruct hit as [[s count] |]; [| lia].
  destruct (py_int lim count) as [m |] eqn:E; [| lia].
  eapply py_int_nonneg; [| exact E]. eapply Hfield; reflexivity.
Qed.

Lemma check_pwned_reads_first_match_witness :
  result env_listed (check_pwned 4300 "abc" USER_AGENT) = Some 1042.
Proof.
  destruct (check_pwned_reads_first_match 4300 env_listed "abc" USER_AGENT _
              eq_refl) as [H _].
  rewrite H. vm_compute. reflexivity.
Defined.

(** C3, the claim as written fails: the service can send a count with a
    minus sign, [int] reads it, and [check_pwned] returns the negative
    number. *)
Lemma check_pwned_negative_count :
  result env_negative (check_pwned 4300 "abc" USER_AGENT) = Some (-5) /\
  ~ (forall n, result env_negative (check_pwned 4300 "abc" USER_AGENT) = Some n ->
               0 <= n).
Proof.
  assert (H : result env_negative (check_pwned 4300 "abc" USER_AGENT) = Some (-5))
    by (vm_compute; reflexivity).
  split; [exact H |].
  intros Hall. specialize (Hall (-5) H). lia.
Qed.

(** ** Normalisation and masking *)

(** C4 (as the code has it).  [normalise_leet] maps P@$$w0rd! to
    "passwordi": the table replaces the final exclamation mark by the letter
    i before the characters that are no letters are removed.  Without that
    last character the result is "password". *)
Theorem normalise_leet_example :
  normalise_leet "P@$$w0rd!" = "passwordi" /\
  normalise_leet "P@$$w0rd" = "password".
Proof. split; reflexivity. Qed.

(** C4, the claim as written fails: the result is not "password". *)
Lemma normalise_leet_example_not_password :
  normalise_leet "P@$$w0rd!" <> "password".
Proof. vm_compute. discriminate. Qed.

Lemma last_char_snoc (s : string) (c : ascii) :
  last_char (s ++ String c "") = Some c.
Proof.
  induction s as [| d s IH]; [reflexivity |].
  cbn [append last_char]. rewrite IH.
  destruct (s ++ String c "")%string eqn:E; [| reflexivity].
  destruct s; discriminate.
Qed.

(** C7.  [mask_password_for_log] maps the empty password to the empty
    string; a password of one or two characters to its first character
    followed by (length - 1) stars; a longer password to its first character,
    (length - 2) stars and its last character. *)
Theorem mask_password_for_log_spec :
  mask_password_for_log "" = "" /\
  (forall (first : ascii) (rest : string),
      (String.length (String first rest) <= 2)%nat ->
      mask_password_for_log (String first rest) =
      String first (str_repeat "*" (String.length (String first rest) - 1))) /\
  (forall (first last : ascii) (middle : string),
      (2 < String.length (String first (middle ++ String last "")))%nat ->
      mask_password_for_log (String first (middle ++ String last "")) =
      (String first
         (str_repeat "*"
            (String.length (String first (middle ++ String last "")) - 2))
       ++ String last "")%string) /\
  mask_password_for_log "ab" = "a*" /\
  mask_password_for_log "abcdef" = "a****f".
Proof.
  split; [reflexivity |]. split; [| split; [| split; reflexivity]].
  - intros first rest Hlen. unfold mask_password_for_log.
    destruct (Nat.leb_spec (String.length (String first rest)) 2) as [_ | H];
      [reflexivity | lia].
  - intros first last middle Hlen. unfold mask_password_for_log.
    destruct (Nat.leb_spec (String.length (String first (middle ++ String last ""))) 2)
      as [H | _]; [lia |].
    change (String first (middle ++ String last ""))%string
      with (String first middle ++ String last "")%string at 2.
    rewrite last_char_snoc. reflexivity.
Qed.

Lemma mask_password_for_log_spec_witness :
  mask_password_for_log "x" = "x" /\
  mask_password_for_log "hunter2" = "h*****2".
Proof.
  destruct mask_password_for_log_spec as [_ [Hshort [Hlong _]]].
  split.
  - apply (Hshort "x"%char ""). simpl. lia.
  - apply (Hlong "h"%char "2"%char "unter"). simpl. lia.
Defined.

(** C8.  On the empty password [is_common_variant] returns [False]; every
    operation it uses ([lower], [strip], [translate], [re.sub], [re.search],
    [in]) is total on strings, so is the function, and nothing is raised. *)
Theorem is_common_variant_empty :
  is_common_variant "" = false /\
  is_obvious_sequence "" = false /\
  normalise_leet "" = "".
Proof. repeat split; reflexivity. Qed.

(** ** The pattern detector *)

Lemma str_map_app (f : ascii -> ascii) (a b : string) :
  str_map f (a ++ b)%string = (str_map f a ++ str_map f b)%string.
Proof. induction a as [| c a IH]; simpl; [reflexivity | now rewrite IH]. Qed.





















(** ** The three stages of [check_strength] *)

Lemma trace_stage_a (lim : nat) (env : Env) (password : string) (use_hibp : bool) :
  is_common_variant password = true ->
  trace env (check_strength lim password use_hibp) = stage_a_events env password.
Proof.
  intros Hcommon. unfold check_strength.
  destruct (String.eqb_spec password "") as [-> | _]; [discriminate Hcommon |].
  rewrite Hcommon. reflexivity.
Qed.

Lemma trace_scoring (env : Env) (password : string) (pwned_count : option Z) :
  trace env
    (let '(score, feedback) := scoring_rules password in
     let strength_label := label_of_score score in
     let bar := bar_of_score score in
     print (MsgStrength strength_label) ;;
     print (MsgScore score) ;;
     print (MsgBar bar) ;;
     (match feedback with
      | [] => print MsgGreat
      | _ => print MsgSuggestions ;; print_tips feedback
      end) ;;
     log_result (mask_password_for_log password) score strength_label
       pwned_count)
  = stage_c_events env password pwned_count.
Proof.
  unfold stage_c_events.
  destruct (scoring_rules password) as [score feedback]. cbn [fst snd].
  rewrite !trace_bind, !trace_print, trace_log_result.
  destruct feedback as [| t rest]; [reflexivity |].
  rewrite trace_bind, trace_print, trace_print_tips. reflexivity.
Qed.

Lemma trace_stages_b_c (lim : nat) (env : Env) (password : string) (use_hibp : bool) :
  password <> "" -> is_common_variant password = false ->
  trace env (check_strength lim password use_hibp) =
  if use_hibp then
    let req := range_request password USER_AGENT in
    Requested req (http_get env req) ::
    match result env (check_pwned lim password USER_AGENT) with
    | None => Printed MsgWarnNoBreachCheck :: stage_c_events env password None
    | Some n => if 0 <? n then stage_b_events env password n
                else stage_c_events env password (Some n)
    end
  else stage_c_events env password None.
Proof.
  intros Hne Hcommon. unfold check_strength.
  destruct (String.eqb_spec password "") as [E | _]; [contradiction |].
  rewrite Hcommon, trace_bind.
  destruct use_hibp.
  - unfold trace at 1, result. rewrite run_check_pwned. cbn [fst snd app].
    f_equal.
    destruct (pwned_of_outcome lim password _) as [n |].
    + destruct (0 <? n); [reflexivity | apply trace_scoring].
    + rewrite trace_bind, trace_print. cbn [app]. f_equal. apply trace_scoring.
  - cbn [trace run fst app result snd]. apply trace_scoring.
Qed.

Lemma scoring_rules_even_in_range (password : string) :
  fst (scoring_rules password) mod 2 = 0 /\
  0 <= fst (scoring_rules password) <= 10.
Proof.
  unfold scoring_rules.
  destruct (12 <=? String.length password)%nat,
           (8 <=? String.length password)%nat,
           (str_exists is_upper_az password),
           (str_exists is_lower_az password),
           (str_exists is_digit password),
           (str_exists is_special password);
    cbn; (split; [reflexivity | lia]).
Qed.

Lemma scores_stage_c (env : Env) (password : string) (pwned_count : option Z) :
  scores (stage_c_events env password pwned_count) =
  [fst (scoring_rules password); fst (scoring_rules password)].
Proof.
  unfold stage_c_events, scores. rewrite !flat_map_app. cbn [flat_map app log_score].
  assert (H : forall fb, flat_map (fun e => match e with
                     | Printed (MsgScore s) => [s]
                     | Logged _ line => [log_score line]
                     | _ => []
                     end) (map (fun t => Printed (MsgTip t)) fb) = []).
  { induction fb as [| t fb IH]; [reflexivity | exact IH]. }
  destruct (snd (scoring_rules password)) as [| t rest]; [reflexivity |].
  cbn [flat_map app map]. rewrite H. reflexivity.
Qed.

(** C5.  For every password that reaches stage C (it is not empty, not a
    common variant, and the breach check, if made, did not report a positive
    count), the score that [check_strength] prints and logs is the one of
    the scoring rules, an even integer between 0 and 10. *)
Theorem stage_c_score_even_in_range :
  forall (lim : nat) (env : Env) (password : string) (use_hibp : bool),
    password <> "" ->
    is_common_variant password = false ->
    (use_hibp = true ->
     forall n, result env (check_pwned lim password USER_AGENT) = Some n ->
               n <= 0) ->
    let score := fst (scoring_rules password) in
    scores (trace env (check_strength lim password use_hibp)) = [score; score] /\
    score mod 2 = 0 /\ 0 <= score <= 10.
Proof.
  intros lim env password use_hibp Hne Hcommon Hbreach score.
  split; [| apply scoring_rules_even_in_range].
  rewrite (trace_stages_b_c lim env password use_hibp Hne Hcommon).
  destruct use_hibp; [| apply scores_stage_c].
  cbn zeta. cbn [scores flat_map app]. fold scores.
  destruct (result env (check_pwned lim password USER_AGENT)) as [n |] eqn:E.
  - specialize (Hbreach eq_refl n eq_refl).
    destruct (Z.ltb_spec 0 n) as [Hpos | _]; [lia | apply scores_stage_c].
  - cbn [scores flat_map app]. fold scores. apply scores_stage_c.
Qed.

Lemma stage_c_score_even_in_range_witness :
  scores (trace env_clean (check_strength 4300 "Tr0ub4dor&3xyz!" true)) = [10; 10] /\
  scores (trace env_timeout (check_strength 4300 "short1" true)) = [4; 4].
Proof.
  split.
  - apply (stage_c_score_even_in_range 4300 env_clean "Tr0ub4dor&3xyz!" true).
    + discriminate.
    + vm_compute. reflexivity.
    + intros _ n. vm_compute. intros H. injection H as <-. discriminate.
  - apply (stage_c_score_even_in_range 4300 env_timeout "short1" true).
    + discriminate.
    + vm_compute. reflexivity.
    + intros _ n. vm_compute. discriminate.
Defined.

(** C9.  For a password that [is_common_variant] accepts, [check_strength]
    ends at stage A: whatever [use_hibp] and whatever the service would
    answer, no request is made, and what is printed and logged is fixed
    (score 0, the label of stage A, the log line with the pwned count 0);
    only the time stamp comes from outside. *)
Theorem common_variant_stops_before_lookup :
  forall (lim : nat) (env : Env) (password : string) (use_hibp : bool),
    is_common_variant password = true ->
    trace env (check_strength lim password use_hibp) =
      [Printed (MsgStrength VeryWeakCommon);
       Printed (MsgScore 0);
       Printed (MsgBar "[----------]");
       Printed MsgSuggestCommon;
       Logged LOG_FILE
         (mkLogLine (utc_now env) (mask_password_for_log password) 0
            VeryWeakCommon "0")] /\
    requests (trace env (check_strength lim password use_hibp)) = [] /\
    forall (env' : Env) (use_hibp' : bool),
      utc_now env' = utc_now env ->
      trace env' (check_strength lim password use_hibp') =
      trace env (check_strength lim password use_hibp).
Proof.
  intros lim env password use_hibp Hcommon.
  rewrite (trace_stage_a lim env password use_hibp Hcommon).
  split; [reflexivity |]. split; [reflexivity |].
  intros env' use_hibp' Hclock.
  rewrite (trace_stage_a lim env' password use_hibp' Hcommon).
  unfold stage_a_events. rewrite Hclock. reflexivity.
Qed.

Lemma common_variant_stops_before_lookup_witness :
  requests (trace env_negative (check_strength 4300 "aaaaaaaa" true)) = [] /\
  trace env_timeout (check_strength 4300 "aaaaaaaa" false) =
  trace env_negative (check_strength 4300 "aaaaaaaa" true).
Proof.
  destruct (common_variant_stops_before_lookup 4300 env_negative "aaaaaaaa" true)
    as [_ [Hreq Hsame]].
  - vm_compute. reflexivity.
  - split; [exact Hreq |]. apply Hsame. reflexivity.
Defined.

Lemma labels_stage_c (env : Env) (password : string) (pwned_count : option Z) :
  labels (stage_c_events env password pwned_count) =
  [label_of_score (fst (scoring_rules password));
   label_of_score (fst (scoring_rules password))].
Proof.
  unfold stage_c_events, labels. rewrite !flat_map_app. cbn [flat_map app log_label].
  assert (H : forall fb, flat_map (fun e => match e with
                     | Printed (MsgStrength l) => [l]
                     | Logged _ line => [log_label line]
                     | _ => []
                     end) (map (fun t => Printed (MsgTip t)) fb) = []).
  { induction fb as [| t fb IH]; [reflexivity | exact IH]. }
  destruct (snd (scoring_rules password)) as [| t rest]; [reflexivity |].
  cbn [flat_map app map]. rewrite H. reflexivity.
Qed.

Lemma label_of_score_stage_c (score : Z) :
  (label_of_score score = Weak \/ label_of_score score = Moderate \/
   label_of_score score = Strong) /\
  (score = 0 -> label_of_score score = Weak).
Proof.
  unfold label_of_score. split.
  - destruct (9 <=? score); [tauto |]. destruct (6 <=? score); tauto.
  - intros ->. reflexivity.
Qed.

(** The labels of a run, by the stage that ends it. *)
Lemma labels_check_strength (lim : nat) (env : Env) (password : string)
    (use_hibp : bool) (l : Label) :
  In l (labels (trace env (check_strength lim password use_hibp))) ->
  password <> "" /\
  if is_common_variant password then l = VeryWeakCommon
  else
    match (if use_hibp then result env (check_pwned lim password USER_AGENT)
           else None) with
    | Some n => if 0 <? n then l = VeryWeakBreached
                else l = label_of_score (fst (scoring_rules password))
    | None => l = label_of_score (fst (scoring_rules password))
    end.
Proof.
  intros Hin.
  assert (Hne : password <> "").
  { intros ->. exact Hin. }
  split; [exact Hne |].
  destruct (is_common_variant password) eqn:Hcommon.
  - rewrite (trace_stage_a lim env password use_hibp Hcommon) in Hin.
    cbn in Hin. destruct Hin as [H | [H | []]]; now symmetry.
  - rewrite (trace_stages_b_c lim env password use_hibp Hne Hcommon) in Hin.
    assert (Hc : forall pc, In l (labels (stage_c_events env password pc)) ->
                            l = label_of_score (fst (scoring_rules password))).
    { intros pc H. rewrite labels_stage_c in H. cbn in H.
      destruct H as [H | [H | []]]; now symmetry. }
    destruct use_hibp; [| exact (Hc _ Hin)].
    cbn zeta in Hin. cbn [labels flat_map app] in Hin. fold labels in Hin.
    destruct (result env (check_pwned lim password USER_AGENT)) as [n |].
    + destruct (0 <? n); [| exact (Hc _ Hin)]. cbn in Hin.
      destruct Hin as [H | [H | []]]; now symmetry.
    + cbn [labels flat_map app] in Hin. fold labels in Hin. exact (Hc _ Hin).
Qed.

(** C10.  A label that a run of [check_strength] prints or logs is the
    stage A label exactly when the password is a common variant, and the
    stage B label exactly when it is not, the breach check is on and it
    returned a positive count.  In every other run the label is the one of
    stage C: Weak, Moderate or Strong, and Weak when the score is 0. *)
Theorem very_weak_only_from_stages_a_b :
  forall (lim : nat) (env : Env) (password : string) (use_hibp : bool)
         (l : Label),
    In l (labels (trace env (check_strength lim password use_hibp))) ->
    let stage_a := is_common_variant password = true in
    let stage_b :=
      is_common_variant password = false /\ use_hibp = true /\
      exists n, result env (check_pwned lim password USER_AGENT) = Some n /\
                0 < n in
    (l = VeryWeakCommon <-> stage_a) /\
    (l = VeryWeakBreached <-> stage_b) /\
    (~ stage_a -> ~ stage_b ->
     l = label_of_score (fst (scoring_rules password)) /\
     (l = Weak \/ l = Moderate \/ l = Strong) /\
     (fst (scoring_rules password) = 0 -> l = Weak)).
Proof.
  intros lim env password use_hibp l Hin stage_a stage_b.
  destruct (labels_check_strength lim env password use_hibp l Hin) as [_ H].
  pose proof (label_of_score_stage_c (fst (scoring_rules password)))
    as [Hthree Hzero].
  assert (Hnot : l = label_of_score (fst (scoring_rules password)) ->
                 l <> VeryWeakCommon /\ l <> VeryWeakBreached).
  { intros ->. destruct Hthree as [-> | [-> | ->]]; split; discriminate. }
  unfold stage_a, stage_b. clear stage_a stage_b.
  destruct (is_common_variant password).
  - subst l. split; [tauto |]. split.
    + split; [discriminate | intros [F _]; discriminate F].
    + intros F. exfalso. apply F. reflexivity.
  - destruct use_hibp.
    + destruct (result env (check_pwned lim password USER_AGENT)) as [n |].
      * destruct (Z.ltb_spec 0 n) as [Hpos | Hle].
        -- subst l. split; [split; discriminate |].
           split; [split; [intros _ | reflexivity] |].
           ++ split; [reflexivity |]. split; [reflexivity |]. now exists n.
           ++ intros _ F. exfalso. apply F.
              split; [reflexivity |]. split; [reflexivity |]. now exists n.
        -- destruct (Hnot H) as [Ha Hb].
           split; [split; [contradiction | discriminate] |].
           split.
           ++ split; [contradiction |].
              intros [_ [_ [m [Hm Hpos]]]]. injection Hm as ->. lia.
           ++ intros _ _. rewrite <- H in Hthree, Hzero. tauto.
      * destruct (Hnot H) as [Ha Hb].
        split; [split; [contradiction | discriminate] |].
        split.
        -- split; [contradiction |].
           intros [_ [_ [m [Hm _]]]]. discriminate Hm.
        -- intros _ _. rewrite <- H in Hthree, Hzero. tauto.
    + destruct (Hnot H) as [Ha Hb].
      split; [split; [contradiction | discriminate] |].
      split.
      * split; [contradiction |]. intros [_ [F _]]. discriminate F.
      * intros _ _. rewrite <- H in Hthree, Hzero. tauto.
Qed.

Lemma very_weak_only_from_stages_a_b_witness :
  fst (scoring_rules "/") = 0 /\
  labels (trace env_timeout (check_strength 4300 "/" true)) = [Weak; Weak] /\
  (Weak = VeryWeakCommon <-> is_common_variant "/" = true).
Proof.
  split; [reflexivity |]. split; [reflexivity |].
  apply (very_weak_only_from_stages_a_b 4300 env_timeout "/" true Weak).
  vm_compute. tauto.
Defined.

(** * Further properties of the helpers *)

(** ** [normalise_leet] *)

Lemma str_filter_app (p : ascii -> bool) (a b : string) :
  str_filter p (a ++ b)%string = (str_filter p a ++ str_filter p b)%string.
Proof.
  induction a as [| c a IH]; simpl; [reflexivity |].
  destruct (p c); simpl; now rewrite IH.
Qed.

Lemma lower_char_alpha (c : ascii) :
  is_alpha_az c = true -> is_lower_az (lower_char c) = true.
Proof.
  destruct c as [[] [] [] [] [] [] [] []]; intros H;
    first [discriminate H | reflexivity].
Qed.

Lemma lower_az_fixed (c : ascii) :
  is_lower_az c = true ->
  table_get LEET_MAP c = None /\ is_alpha_az c = true /\ lower_char c = c.
Proof.
  destruct c as [[] [] [] [] [] [] [] []]; intros H;
    first [discriminate H | repeat split; reflexivity].
Qed.

Lemma normalise_leet_fixed (s : string) :
  str_forall is_lower_az s = true -> normalise_leet s = s.
Proof.
  unfold normalise_leet, translate, str_lower.
  induction s as [| c s IH]; [reflexivity |].
  cbn [str_forall str_bind]. intros H.
  apply andb_prop in H. destruct H as [Hc Hs].
  destruct (lower_az_fixed c Hc) as [Hget [Halpha Hlow]].
  rewrite Hget. cbn [append str_filter]. rewrite Halpha.
  cbn [str_map]. rewrite Hlow, (IH Hs). reflexivity.
Qed.

Lemma normalise_leet_lower_az (password : string) :
  str_forall is_lower_az (normalise_leet password) = true.
Proof.
  unfold normalise_leet, str_lower.
  induction (translate LEET_MAP password) as [| c t IH]; [reflexivity |].
  cbn [str_filter]. destruct (is_alpha_az c) eqn:E; [| exact IH].
  cbn [str_map str_forall]. now rewrite (lower_char_alpha c E), IH.
Qed.

(** X1.  The core that [normalise_leet] returns holds nothing but the
    letters a to z, and normalising a core again changes nothing. *)
Theorem normalise_leet_letters_idempotent :
  forall password : string,
    str_forall is_lower_az (normalise_leet password) = true /\
    normalise_leet (normalise_leet password) = normalise_leet password.
Proof.
  intros password. split.
  - apply normalise_leet_lower_az.
  - apply normalise_leet_fixed, normalise_leet_lower_az.
Qed.

(** X2.  [normalise_leet] works character by character: the core of a
    concatenation is the concatenation of the cores. *)
Theorem normalise_leet_app :
  forall a b : string,
    normalise_leet (a ++ b) = (normalise_leet a ++ normalise_leet b)%string.
Proof.
  intros a b. unfold normalise_leet, translate, str_lower.
  now rewrite str_bind_app, str_filter_app, str_map_app.
Qed.

(** ** [mask_password_for_log] *)

Lemma str_repeat_length (c : ascii) (n : nat) :
  String.length (str_repeat c n) = n.
Proof. induction n as [| n IH]; simpl; [reflexivity | now rewrite IH]. Qed.

(** X3.  The mask is as long as the password, and it is a function of the
    length, the first character and the last character alone: two passwords
    that agree on these three have the same mask. *)
Theorem mask_keeps_length_first_last_only :
  (forall pw : string,
      String.length (mask_password_for_log pw) = String.length pw) /\
  (forall p q : string,
      String.length p = String.length q ->
      take 1 p = take 1 q ->
      last_char p = last_char q ->
      mask_password_for_log p = mask_password_for_log q).
Proof.
  split.
  - intros [| first rest]; [reflexivity |].
    unfold mask_password_for_log.
    destruct (Nat.leb_spec (String.length (String first rest)) 2) as [H | H].
    + cbn [String.length] in *. rewrite str_repeat_length. lia.
    + rewrite str_length_app. cbn [String.length] in *.
      rewrite str_repeat_length. lia.
  - intros [| a p] [| b q] Hlen Hfirst Hlast; try discriminate Hlen;
      [reflexivity |].
    injection Hfirst as ->.
    unfold mask_password_for_log. rewrite Hlen, Hlast. reflexivity.
Qed.

Lemma mask_keeps_length_first_last_only_witness :
  mask_password_for_log "hunter2" = mask_password_for_log "hXy 0Z2".
Proof.
  destruct mask_keeps_length_first_last_only as [_ H].
  apply (H "hunter2" "hXy 0Z2"); reflexivity.
Defined.

(** ** Patterns inside a longer password *)

Lemma search_three_digits_left (l s : string) :
  search_three_digits s = true -> search_three_digits (l ++ s) = true.
Proof.
  intros H. induction l as [| c l IH]; [exact H |].
  cbn [append search_three_digits]. rewrite IH. apply orb_true_r.
Qed.

Lemma search_three_digits_right (s r : string) :
  search_three_digits s = true -> search_three_digits (s ++ r) = true.
Proof.
  induction s as [| a s IH]; [discriminate |].
  cbn [append search_three_digits]. intros H.
  apply orb_prop in H. destruct H as [H | H].
  - destruct s as [| b [| c t]]; try discriminate H.
    cbn [append]. rewrite H. reflexivity.
  - rewrite (IH H). apply orb_true_r.
Qed.

Lemma search_triple_left (l s : string) :
  search_triple s = true -> search_triple (l ++ s) = true.
Proof.
  intros H. induction l as [| c l IH]; [exact H |].
  cbn [append search_triple]. rewrite IH. apply orb_true_r.
Qed.

Lemma search_triple_right (s r : string) :
  search_triple s = true -> search_triple (s ++ r) = true.
Proof.
  induction s as [| a s IH]; [discriminate |].
  cbn [append search_triple]. intros H.
  apply orb_prop in H. destruct H as [H | H].
  - destruct s as [| b [| c t]]; try discriminate H.
    cbn [append]. rewrite H. reflexivity.
  - rewrite (IH H). apply orb_true_r.
Qed.

Lemma prefix_right (sub s r : string) :
  String.prefix sub s = true -> String.prefix sub (s ++ r) = true.
Proof.
  revert s. induction sub as [| a sub IH]; intros s H;
    [destruct (s ++ r)%string; reflexivity |].
  destruct s as [| b s]; [discriminate H |].
  cbn [append String.prefix] in *.
  destruct (ascii_dec a b); [now apply IH | discriminate H].
Qed.

Lemma contains_left (sub l s : string) :
  contains sub s = true -> contains sub (l ++ s) = true.
Proof.
  intros H. induction l as [| c l IH]; [exact H |].
  cbn [append contains]. rewrite IH. apply orb_true_r.
Qed.

Lemma contains_right (sub s r : string) :
  contains sub s = true -> contains sub (s ++ r) = true.
Proof.
  induction s as [| a s IH]; intros H.
  - destruct sub; [| discriminate H]. destruct r; reflexivity.
  - cbn [contains] in H. apply orb_prop in H. destruct H as [H | H].
    + cbn [append contains].
      change (String a (s ++ r))%string with (String a s ++ r)%string.
      now rewrite (prefix_right _ _ r H).
    + cbn [append contains]. rewrite (IH H). apply orb_true_r.
Qed.

Lemma contains_inside (sub l s r : string) :
  contains sub s = true -> contains sub (l ++ s ++ r) = true.
Proof. intros H. now apply contains_left, contains_right. Qed.

Lemma existsb_impl {A : Type} (f g : A -> bool) (l : list A) :
  (forall x, f x = true -> g x = true) ->
  existsb f l = true -> existsb g l = true.
Proof.
  intros Hfg. induction l as [| x l IH]; simpl; [trivial |].
  intros H. apply orb_prop in H. destruct H as [H | H].
  - now rewrite (Hfg x H).
  - rewrite (IH H). apply orb_true_r.
Qed.

Lemma is_obvious_sequence_inside (l s r : string) :
  is_obvious_sequence s = true -> is_obvious_sequence (l ++ s ++ r) = true.
Proof.
  unfold is_obvious_sequence. intros H.
  destruct (search_three_digits s) eqn:E3.
  { now rewrite (search_three_digits_left l _ (search_three_digits_right s r E3)). }
  destruct (search_triple s) eqn:Et.
  { rewrite (search_triple_left l _ (search_triple_right s r Et)).
    now destruct (search_three_digits (l ++ s ++ r)). }
  destruct (search_three_digits (l ++ s ++ r)); [reflexivity |].
  destruct (search_triple (l ++ s ++ r)); [reflexivity |].
  revert H. apply existsb_impl. intros sub Hsub.
  unfold str_lower. rewrite !str_map_app. now apply contains_inside.
Qed.

(** X4.  A weak pattern stays weak inside a longer password: when the core
    of [s] contains a banned substring, or [s] has an obvious-sequence shape,
    every password that contains [s] is a common variant, whatever is put
    before and after it. *)
Theorem weak_pattern_inside_is_common_variant :
  forall s l r : string,
    existsb (fun sub => contains sub (normalise_leet s)) BANNED_SUBSTRINGS = true
    \/ is_obvious_sequence s = true ->
    is_common_variant (l ++ s ++ r) = true.
Proof.
  intros s l r H. unfold is_common_variant.
  destruct (str_in _ COMMON_PASSWORDS); [reflexivity |].
  destruct (negb _ && _); [reflexivity |].
  destruct H as [H | H].
  - assert (Hb : existsb (fun sub => contains sub (normalise_leet (l ++ s ++ r)))
                   BANNED_SUBSTRINGS = true).
    { revert H. apply existsb_impl. intros sub Hsub.
      rewrite !normalise_leet_app. now apply contains_inside. }
    now rewrite Hb.
  - rewrite (is_obvious_sequence_inside l s r H).
    now destruct (existsb _ BANNED_SUBSTRINGS).
Qed.

Lemma weak_pattern_inside_is_common_variant_witness :
  is_common_variant "Xy#L3tMe!n-88!" = true /\
  is_common_variant "Zq&0007%Km" = true.
Proof.
  split.
  - apply (weak_pattern_inside_is_common_variant "L3tMe!n" "Xy#" "-88!").
    left. vm_compute. reflexivity.
  - apply (weak_pattern_inside_is_common_variant "0007" "Zq&" "%Km").
    right. vm_compute. reflexivity.
Defined.

(** * Further properties of [check_strength] *)

Lemma trace_empty_password (lim : nat) (env : Env) (use_hibp : bool) :
  trace env (check_strength lim "" use_hibp) = [Printed MsgNoPassword].
Proof. reflexivity. Qed.

Lemma requests_tips (feedback : list Tip) :
  requests (map (fun t => Printed (MsgTip t)) feedback) = [].
Proof. induction feedback as [| t fb IH]; [reflexivity | exact IH]. Qed.

Lemma logged_tips (feedback : list Tip) :
  logged (map (fun t => Printed (MsgTip t)) feedback) = [].
Proof. induction feedback as [| t fb IH]; [reflexivity | exact IH]. Qed.

Lemma requests_stage_c (env : Env) (password : string) (pc : option Z) :
  requests (stage_c_events env password pc) = [].
Proof.
  unfold stage_c_events, requests. rewrite !flat_map_app. cbn [flat_map app].
  destruct (snd (scoring_rules password)) as [| t rest]; [reflexivity |].
  cbn [flat_map app]. fold (requests (map (fun t => Printed (MsgTip t)) rest)).
  now rewrite requests_tips.
Qed.

Lemma logged_stage_c (env : Env) (password : string) (pc : option Z) :
  logged (stage_c_events env password pc) =
  [mkLogLine (utc_now env) (mask_password_for_log password)
     (fst (scoring_rules password))
     (label_of_score (fst (scoring_rules password))) (pwned_field pc)].
Proof.
  unfold stage_c_events, logged. rewrite !flat_map_app. cbn [flat_map app].
  destruct (snd (scoring_rules password)) as [| t rest]; [reflexivity |].
  cbn [flat_map app]. fold (logged (map (fun t => Printed (MsgTip t)) rest)).
  now rewrite logged_tips.
Qed.

(** The requests of a run that goes to its end. *)
Lemma requests_check_strength :
  forall (lim : nat) (env : Env) (password : string) (use_hibp : bool),
    requests (trace env (check_strength lim password use_hibp)) =
    if negb (password =? "")%string && negb (is_common_variant password)
       && use_hibp
    then [range_request password USER_AGENT]
    else [].
Proof.
  intros lim env password use_hibp.
  destruct (String.eqb_spec password "") as [-> | Hne]; [reflexivity |].
  destruct (is_common_variant password) eqn:Hcommon.
  - now rewrite (trace_stage_a lim env password use_hibp Hcommon).
  - rewrite (trace_stages_b_c lim env password use_hibp Hne Hcommon).
    destruct use_hibp; [| apply requests_stage_c].
    cbn zeta. cbn [requests flat_map app negb andb]. fold requests. f_equal.
    destruct (result env (check_pwned lim password USER_AGENT)) as [n |].
    + destruct (0 <? n); [reflexivity | apply requests_stage_c].
    + cbn [requests flat_map app]. fold requests. apply requests_stage_c.
Qed.

(** The records that a run that goes to its end hands to the log. *)
Lemma logged_check_strength (lim : nat) (env : Env) (password : string)
    (use_hibp : bool) :
  exists score label pwned_str,
    logged (trace env (check_strength lim password use_hibp)) =
    if (password =? "")%string then []
    else [mkLogLine (utc_now env) (mask_password_for_log password)
                    score label pwned_str].
Proof.
  destruct (String.eqb_spec password "") as [-> | Hne].
  { exists 0, Weak, "". reflexivity. }
  destruct (is_common_variant password) eqn:Hcommon.
  - rewrite (trace_stage_a lim env password use_hibp Hcommon).
    do 3 eexists. reflexivity.
  - rewrite (trace_stages_b_c lim env password use_hibp Hne Hcommon).
    destruct use_hibp.
    + cbn zeta. cbn [logged flat_map app]. fold logged.
      destruct (result env (check_pwned lim password USER_AGENT)) as [n |].
      * destruct (0 <? n).
        -- do 3 eexists. reflexivity.
        -- rewrite logged_stage_c. do 3 eexists. reflexivity.
      * cbn [logged flat_map app]. fold logged.
        rewrite logged_stage_c. do 3 eexists. reflexivity.
    + rewrite logged_stage_c. do 3 eexists. reflexivity.
Qed.

(** X5.  Whatever [check_strength] sends to the breach service is the range
    request of the password (the URL of the hash prefix, the default user
    agent), it sends at most one request, and it sends one only for a
    password that is not empty and not a common variant, with [use_hibp]
    set. *)
Theorem check_strength_sends_at_most_the_range_request :
  forall (lim : nat) (env : Env) (password : string) (use_hibp : bool),
    (List.length (requests (trace env (check_strength lim password use_hibp)))
     <= 1)%nat /\
    forall r : Request,
      In r (requests (trace env (check_strength lim password use_hibp))) ->
      r = range_request password USER_AGENT /\
      password <> "" /\ is_common_variant password = false /\
      use_hibp = true.
Proof.
  intros lim env password use_hibp.
  rewrite requests_check_strength.
  destruct (String.eqb_spec password "") as [-> | Hne];
    [split; [cbn; lia | intros r []] |].
  destruct (is_common_variant password);
    [split; [cbn; lia | intros r []] |].
  destruct use_hibp; [| split; [cbn; lia | intros r []]].
  cbn [negb andb]. split; [cbn; lia |].
  intros r [<- | []]. repeat split. exact Hne.
Qed.

Lemma check_strength_sends_at_most_the_range_request_witness :
  range_request "short1" USER_AGENT =
  mkRequest "https://api.pwnedpasswords.com/range/E8B01"
            [("User-Agent", USER_AGENT)] 10 /\
  is_common_variant "short1" = false.
Proof.
  destruct (check_strength_sends_at_most_the_range_request
              4300 env_timeout "short1" true) as [_ H].
  destruct (H (mkRequest "https://api.pwnedpasswords.com/range/E8B01"
                         [("User-Agent", USER_AGENT)] 10)) as [E [_ [Hc _]]].
  - vm_compute. left. reflexivity.
  - split; [symmetry; exact E | exact Hc].
Defined.

(** X6.  [check_strength] hands at most one record to the log, and none on
    the empty password.  A record it hands over carries the time of the
    clock and, for the password, its mask.  When the run
    needs no lookup (the password is a common variant, or it is not empty
    and [use_hibp] is off) there is exactly one record. *)
Theorem check_strength_logs_masked_record :
  forall (lim : nat) (env : Env) (password : string) (use_hibp : bool),
    (List.length (logged (trace env (check_strength lim password use_hibp)))
     <= 1)%nat /\
    (password = "" ->
     logged (trace env (check_strength lim password use_hibp)) = []) /\
    (forall line : LogLine,
        In line (logged (trace env (check_strength lim password use_hibp))) ->
        log_timestamp line = utc_now env /\
        log_masked_pw line = mask_password_for_log password) /\
    (is_common_variant password = true \/
     (password <> "" /\ use_hibp = false) ->
     List.length (logged (trace env (check_strength lim password use_hibp)))
     = 1%nat).
Proof.
  intros lim env password use_hibp.
  destruct (logged_check_strength lim env password use_hibp)
    as [score [label [pwned_str E]]].
  rewrite E. clear E.
  destruct (String.eqb_spec password "") as [-> | Hne].
  - split; [cbn; lia |]. split; [reflexivity |]. split; [intros line [] |].
    intros [H | [H _]]; [discriminate H | contradiction].
  - split; [cbn; lia |]. split; [contradiction |].
    split; [| reflexivity].
    intros line [<- | []]. split; reflexivity.
Qed.

Lemma check_strength_logs_masked_record_witness :
  logged (trace env_breached (check_strength 4300 "Tr0ub4dor&3xyz!" false)) =
  [mkLogLine "2024-01-01T00:00:00+00:00" "T*************!" 10 Strong "unknown"] /\
  log_masked_pw
    (mkLogLine "2024-01-01T00:00:00+00:00" "T*************!" 10 Strong "unknown")
  = mask_password_for_log "Tr0ub4dor&3xyz!".
Proof.
  destruct (check_strength_logs_masked_record 4300 env_breached
              "Tr0ub4dor&3xyz!" false) as [_ [_ [H _]]].
  split; [reflexivity |].
  apply (H (mkLogLine "2024-01-01T00:00:00+00:00" "T*************!" 10 Strong
                      "unknown")).
  vm_compute. left. reflexivity.
Defined.

(** X7.  Stage B: when the password is no common variant and the breach
    check returns a positive count [n], the run consists of the request, the
    stage B label, the count, the score 0, the empty bar and the advice, and
    of the log line with score 0 and the count; the structure of the password
    is not scored and no tip is printed. *)
Theorem breached_password_scores_zero :
  forall (lim : nat) (env : Env) (password : string) (n : Z),
    password <> "" ->
    is_common_variant password = false ->
    result env (check_pwned lim password USER_AGENT) = Some n ->
    0 < n ->
    trace env (check_strength lim password true) =
    [Requested (range_request password USER_AGENT)
               (http_get env (range_request password USER_AGENT));
     Printed (MsgStrength VeryWeakBreached);
     Printed (MsgSeen n);
     Printed (MsgScore 0);
     Printed (MsgBar "[----------]");
     Printed MsgSuggestBreached;
     Logged LOG_FILE
       (mkLogLine (utc_now env) (mask_password_for_log password) 0
                  VeryWeakBreached (str_of_int n))].
Proof.
  intros lim env password n Hne Hcommon Hres Hpos.
  rewrite (trace_stages_b_c lim env password true Hne Hcommon).
  cbn zeta. rewrite Hres.
  destruct (Z.ltb_spec 0 n) as [_ | H]; [reflexivity | lia].
Qed.

Lemma breached_password_scores_zero_witness :
  fst (scoring_rules "Tr0ub4dor&3xyz!") = 10 /\
  scores (trace env_breached (check_strength 4300 "Tr0ub4dor&3xyz!" true)) = [0; 0] /\
  logged (trace env_breached (check_strength 4300 "Tr0ub4dor&3xyz!" true)) =
  [mkLogLine "2024-01-01T00:00:00+00:00" "T*************!" 0
             VeryWeakBreached "1234"].
Proof.
  split; [reflexivity |].
  rewrite (breached_password_scores_zero 4300 env_breached "Tr0ub4dor&3xyz!" 1234).
  - split; reflexivity.
  - discriminate.
  - vm_compute. reflexivity.
  - vm_compute. reflexivity.
  - reflexivity.
Defined.

Lemma result_check_pwned_failed (lim : nat) (env : Env) (password : string) :
  lookup_failed (http_get env (range_request password USER_AGENT)) ->
  result env (check_pwned lim password USER_AGENT) = None.
Proof.
  intros Hfail. unfold result. rewrite run_check_pwned. cbn [snd].
  destruct (http_get env _) as [| status text]; [reflexivity |].
  cbn in Hfail |- *.
  destruct (Z.eqb_spec status 200) as [E | _]; [contradiction | reflexivity].
Qed.

(** X8.  A failed lookup costs nothing but a warning: for a password that
    reaches the breach check, the run with [use_hibp] set and a failing
    lookup is the request, the warning, and then exactly the run without the
    breach check (same label, score, bar, tips and log line, with the pwned
    field "unknown"). *)
Theorem failed_lookup_is_offline_run_with_warning :
  forall (lim : nat) (env : Env) (password : string),
    password <> "" ->
    is_common_variant password = false ->
    lookup_failed (http_get env (range_request password USER_AGENT)) ->
    trace env (check_strength lim password true) =
    Requested (range_request password USER_AGENT)
              (http_get env (range_request password USER_AGENT))
    :: Printed MsgWarnNoBreachCheck
    :: trace env (check_strength lim password false).
Proof.
  intros lim env password Hne Hcommon Hfail.
  rewrite (trace_stages_b_c lim env password true Hne Hcommon).
  rewrite (trace_stages_b_c lim env password false Hne Hcommon).
  cbn zeta. now rewrite (result_check_pwned_failed lim env password Hfail).
Qed.

Lemma failed_lookup_is_offline_run_with_warning_witness :
  printed (trace env_timeout (check_strength 4300 "short1" true)) =
  MsgWarnNoBreachCheck ::
  printed (trace env_timeout (check_strength 4300 "short1" false)).
Proof.
  rewrite (failed_lookup_is_offline_run_with_warning 4300 env_timeout "short1").
  - reflexivity.
  - discriminate.
  - vm_compute. reflexivity.
  - exact I.
Defined.

Lemma printed_stage_c (env : Env) (password : string) (pc pc' : option Z) :
  printed (stage_c_events env password pc) =
  printed (stage_c_events env password pc').
Proof.
  unfold stage_c_events, printed. rewrite !flat_map_app. reflexivity.
Qed.

(** X9.  A count that is not positive is "not breached", a negative one
    included: the run prints what the run without the breach check prints,
    and logs the same line except for the pwned field, which holds the
    count. *)
Theorem nonpositive_count_is_not_breached :
  forall (lim : nat) (env : Env) (password : string) (n : Z),
    password <> "" ->
    is_common_variant password = false ->
    result env (check_pwned lim password USER_AGENT) = Some n ->
    n <= 0 ->
    printed (trace env (check_strength lim password true)) =
    printed (trace env (check_strength lim password false)) /\
    logged (trace env (check_strength lim password true)) =
    map (with_pwned_str (str_of_int n))
        (logged (trace env (check_strength lim password false))).
Proof.
  intros lim env password n Hne Hcommon Hres Hle.
  rewrite (trace_stages_b_c lim env password true Hne Hcommon).
  rewrite (trace_stages_b_c lim env password false Hne Hcommon).
  cbn zeta. rewrite Hres.
  destruct (Z.ltb_spec 0 n) as [H | _]; [lia |].
  cbn [printed logged flat_map app]. fold printed logged.
  split; [apply printed_stage_c |].
  rewrite !logged_stage_c. reflexivity.
Qed.

Lemma nonpositive_count_is_not_breached_witness :
  logged (trace env_negative (check_strength 4300 "abc" true)) =
  [mkLogLine "2024-01-01T00:00:00+00:00" "a*c" 2 Weak "-5"].
Proof.
  destruct (nonpositive_count_is_not_breached 4300 env_negative "abc" (-5))
    as [_ H].
  - discriminate.
  - vm_compute. reflexivity.
  - vm_compute. reflexivity.
  - lia.
  - rewrite H. vm_compute. reflexivity.
Defined.

(** ** The scoring rules *)

(** X10.  The final score is twice the number of basic checks that pass
    (at least 8 characters, an upper-case letter, a lower-case letter, a
    digit, a special character): the single point for 8 to 11 characters is
    always rounded up to the two points of 12 or more, so the threshold 12
    does not show in the result.  Every failed check gives one tip, hence
    score + 2 * (number of tips) = 10. *)
Theorem score_is_twice_passed_checks :
  forall password : string,
    fst (scoring_rules password) =
      2 * Z.of_nat (count_true (basic_checks password)) /\
    List.length (snd (scoring_rules password)) =
      (5 - count_true (basic_checks password))%nat /\
    fst (scoring_rules password)
      + 2 * Z.of_nat (List.length (snd (scoring_rules password))) = 10.
Proof.
  intros password. unfold scoring_rules, basic_checks, count_true.
  destruct (Nat.leb_spec 12 (String.length password)) as [H12 | H12],
           (Nat.leb_spec 8 (String.length password)) as [H8 | H8];
    try (exfalso; lia);
    destruct (str_exists is_upper_az password),
             (str_exists is_lower_az password),
             (str_exists is_digit password),
             (str_exists is_special password);
    cbn; repeat split; reflexivity.
Qed.

(** X11.  The label of stage C is decided by the number of tips: Strong
    with none, Moderate with one or two, Weak with three or more; and there
    is no tip exactly when all five basic checks pass. *)
Theorem label_by_number_of_tips :
  forall password : string,
    label_of_score (fst (scoring_rules password)) =
      match List.length (snd (scoring_rules password)) with
      | 0%nat => Strong
      | 1%nat | 2%nat => Moderate
      | _ => Weak
      end /\
    (snd (scoring_rules password) = [] <->
     forallb (fun b => b) (basic_checks password) = true).
Proof.
  intros password. unfold scoring_rules, basic_checks.
  destruct (Nat.leb_spec 12 (String.length password)) as [H12 | H12],
           (Nat.leb_spec 8 (String.length password)) as [H8 | H8];
    try (exfalso; lia);
    destruct (str_exists is_upper_az password),
             (str_exists is_lower_az password),
             (str_exists is_digit password),
             (str_exists is_special password);
    cbn; (split; [reflexivity | split; intros H; first [reflexivity | discriminate H]]).
Qed.

(** X12.  The bar of stage C always has five slots between its brackets:
    one # for each basic check that passes and one - for each tip. *)
Theorem stage_c_bar_has_five_slots :
  forall password : string,
    let bar := bar_of_score (fst (scoring_rules password)) in
    String.length bar = 7%nat /\
    count_char "#" bar = count_true (basic_checks password) /\
    count_char "-" bar = List.length (snd (scoring_rules password)).
Proof.
  intros password. unfold scoring_rules, basic_checks, count_true.
  destruct (Nat.leb_spec 12 (String.length password)) as [H12 | H12],
           (Nat.leb_spec 8 (String.length password)) as [H8 | H8];
    try (exfalso; lia);
    destruct (str_exists is_upper_az password),
             (str_exists is_lower_az password),
             (str_exists is_digit password),
             (str_exists is_special password);
    cbn; repeat split; reflexivity.
Qed.

(** ** The pwned field of the log *)

Lemma to_int_not_nil (n : Z) : Z.to_int n <> Decimal.Pos Decimal.Nil /\
                               Z.to_int n <> Decimal.Neg Decimal.Nil.
Proof.
  destruct n as [| p | p]; cbn; split; try discriminate.
  - intros H. injection H as H. exact (DecimalPos.Unsigned.to_uint_nonnil p H).
  - intros H. injection H as H. exact (DecimalPos.Unsigned.to_uint_nonnil p H).
Qed.

Lemma int_of_str_of_int (n : Z) :
  NilZero.int_of_string (str_of_int n) = Some (Z.to_int n).
Proof.
  unfold str_of_int. destruct (to_int_not_nil n) as [Hp Hn].
  now apply NilZero.isi.
Qed.

(** X13.  The pwned field that [log_result] writes tells the breach results
    apart: different results give different fields; in particular no count
    is written as "unknown", and "unknown" (no check, or a failed one) is
    never written as a count such as 0. *)
Theorem pwned_field_injective :
  forall a b : option Z, pwned_field a = pwned_field b -> a = b.
Proof.
  assert (Hunknown : forall n, str_of_int n <> "unknown").
  { intros n H. pose proof (int_of_str_of_int n) as E. rewrite H in E.
    discriminate E. }
  intros [a |] [b |] H; cbn [pwned_field] in H.
  - f_equal. apply DecimalZ.to_int_inj.
    pose proof (int_of_str_of_int a) as Ea. rewrite H, int_of_str_of_int in Ea.
    now injection Ea.
  - exfalso. exact (Hunknown a H).
  - exfalso. symmetry in H. exact (Hunknown b H).
  - reflexivity.
Qed.

Lemma pwned_field_injective_witness :
  pwned_field None <> pwned_field (Some 0).
Proof.
  intros H. pose proof (pwned_field_injective None (Some 0) H) as E.
  discriminate E.
Defined.

(** ** Scores of all stages *)

(** The scores of a run that goes to its end. *)
Lemma scores_check_strength :
  forall (lim : nat) (env : Env) (password : string) (use_hibp : bool),
    exists s : Z,
      scores (trace env (check_strength lim password use_hibp)) =
        (if (password =? "")%string then [] else [s; s]) /\
      s mod 2 = 0 /\ 0 <= s <= 10.
Proof.
  intros lim env password use_hibp.
  assert (Hzero : 0 mod 2 = 0 /\ 0 <= 0 <= 10) by (split; [reflexivity | lia]).
  destruct (String.eqb_spec password "") as [-> | Hne].
  { exists 0. split; [reflexivity | exact Hzero]. }
  destruct (is_common_variant password) eqn:Hcommon.
  { exists 0. rewrite (trace_stage_a lim env password use_hibp Hcommon).
    split; [reflexivity | exact Hzero]. }
  rewrite (trace_stages_b_c lim env password use_hibp Hne Hcommon).
  destruct use_hibp.
  - cbn zeta. cbn [scores flat_map app]. fold scores.
    destruct (result env (check_pwned lim password USER_AGENT)) as [n |].
    + destruct (0 <? n).
      * exists 0. split; [reflexivity | exact Hzero].
      * exists (fst (scoring_rules password)).
        split; [apply scores_stage_c | apply scoring_rules_even_in_range].
    + cbn [scores flat_map app]. fold scores.
      exists (fst (scoring_rules password)).
      split; [apply scores_stage_c | apply scoring_rules_even_in_range].
  - exists (fst (scoring_rules password)).
    split; [apply scores_stage_c | apply scoring_rules_even_in_range].
Qed.

(** X14.  Every score that a run of [check_strength] shows, printed or
    logged, in whichever stage, is an even integer between 0 and 10, and a
    run never shows two different scores. *)
Theorem shown_scores_even_in_range :
  forall (lim : nat) (env : Env) (password : string) (use_hibp : bool)
         (s : Z),
    In s (scores (trace env (check_strength lim password use_hibp))) ->
    (s mod 2 = 0 /\ 0 <= s <= 10) /\
    forall s' : Z,
      In s' (scores (trace env (check_strength lim password use_hibp))) ->
      s' = s.
Proof.
  intros lim env password use_hibp s Hin.
  destruct (scores_check_strength lim env password use_hibp)
    as [s0 [E [Heven Hrange]]].
  rewrite E in *. clear E.
  destruct (password =? "")%string; [destruct Hin |].
  assert (Hs : s = s0) by (destruct Hin as [H | [H | []]]; now symmetry).
  subst s0. split; [split; assumption |].
  intros s' [H | [H | []]]; now symmetry.
Qed.

Lemma shown_scores_even_in_range_witness :
  0 <= 4 <= 10 /\
  scores (trace env_timeout (check_strength 4300 "short1" true)) = [4; 4].
Proof.
  split; [| reflexivity].
  apply (shown_scores_even_in_range 4300 env_timeout "short1" true 4).
  vm_compute. left. reflexivity.
Defined.
